(** * sheetquery: the query builder of [src/index.ts]

    A shallow embedding of [SheetQueryBuilder] and of the calls it makes
    on the spreadsheet service, followed by the properties of its row
    materialisation, caching, update and delete-with-reindexing logic.

    Layout:
    - cell values and JavaScript truthiness;
    - row records: a metadata slot plus ordered data properties;
    - the spreadsheet service as an interface, and the call trace;
    - the builder methods, in a state-and-exception monad;
    - an in-memory table store implementing the interface;
    - the vocabulary of the statements and some sample tables;
    - what each method does, step by step, and what it preserves;
    - the table store: deleting with reindexing removes the selection;
    - the builder's contract;
    - further properties: what the read path and each mutation may do,
      the cache invariant along any chain of calls, records and their
      flat rows, and reads after writes on the table store. *)

From Stdlib Require Import ZArith Ascii String List Sorted Lia.
From stdpp Require Import base option list strings gmap pretty.

Local Open Scope string_scope.
Local Open Scope list_scope.
Local Open Scope Z_scope.

(** ** Cell values *)

(** What a cell, a heading or a property of a plain record can hold.
    Numbers are the integers, as [Z], and NaN: the model is exact for
    the integers a double holds and prints in plain decimal digits;
    fractional doubles, dates and nested objects are not part of it.
    [VInherited k] is what a plain record hands out under the name [k]
    when it has no property of its own by that name and [k] is a
    property of [Object.prototype]: a built-in function, or, for
    [__proto__], the prototype itself. *)
Inductive value : Type :=
  | VUndefined
  | VNull
  | VBool (b : bool)
  | VNum (n : Z)
  | VNaN
  | VStr (s : string)
  | VInherited (k : string).

Global Instance value_eq_dec : EqDecision value.
Proof. solve_decision. Defined.

(** JavaScript ToBoolean: what [v ? a : b] and [!v] test. *)
Definition truthy (v : value) : bool :=
  match v with
  | VUndefined | VNull | VNaN => false
  | VBool b => b
  | VNum n => negb (Z.eqb n 0)
  | VStr s => negb (String.eqb s EmptyString)
  | VInherited _ => true
  end.

(** JavaScript ToPropertyKey: the name under which [obj[v]] reads or
    writes.  A built-in function converts to its source text as V8
    prints it, the prototype object to [[object Object]]. *)
Definition toPropertyKey (v : value) : string :=
  match v with
  | VUndefined => "undefined"
  | VNull => "null"
  | VBool true => "true"
  | VBool false => "false"
  | VNum n => pretty n
  | VNaN => "NaN"
  | VStr s => s
  | VInherited k =>
      if String.eqb k "__proto__" then "[object Object]"
      else "function " ++ (if String.eqb k "constructor" then "Object" else k)
           ++ "() { [native code] }"
  end.

(** ** Row records *)

(** [__meta: { row: number, cols: number }] *)
Record Meta : Type := { row : Z; cols : Z }.

(** [RowObject]: the [__meta] slot and the data properties in creation
    order.  The slot is [Some m] while [o.__meta] holds a metadata
    record (for a record a callback hands back: any truthy value), and
    [None] once [delete o.__meta] ran, or for a record without one.

    The data properties are those under ordinary names.  Two names are
    not ordinary: in the source an assignment under [__meta] replaces
    the metadata, and one under [__proto__] is not stored.  The model
    is exact for records whose data property names are not reserved;
    every statement about the contents of a record read from a table
    assumes headings without reserved names ([plainHeadings]). *)
Record RowObject : Type := { __meta : option Meta; fields : list (string * value) }.

Definition reservedKey (k : string) : bool :=
  (String.eqb k "__meta" || String.eqb k "__proto__")%bool.

(** No heading of [hs] has a reserved name as its property key. *)
Definition plainHeadings (hs : list value) : Prop :=
  Forall (λ h, reservedKey (toPropertyKey h) = false) hs.

(** [DictObject]: a plain record, given by its own properties. *)
Abbreviation DictObject := (gmap string value).

(** The property names of [Object.prototype], which every plain record
    inherits. *)
Definition inheritedNames : list string :=
  [ "constructor"; "__defineGetter__"; "__defineSetter__"; "hasOwnProperty";
    "__lookupGetter__"; "__lookupSetter__"; "isPrototypeOf"; "propertyIsEnumerable";
    "toString"; "valueOf"; "__proto__"; "toLocaleString" ].

(** [row[k]] on a plain record: its own property when it has one, else
    what it inherits under [k], else [undefined]. *)
Definition readProp (ro : DictObject) (k : string) : value :=
  match ro !! k with
  | Some v => v
  | None => if bool_decide (k ∈ inheritedNames) then VInherited k else VUndefined
  end.

Definition WhereFn : Type := RowObject → bool.

(** What an update callback hands back: nothing, the very record it was
    given, or another record. *)
Inductive UpdateResult : Type :=
  | RetUndefined
  | RetSame
  | RetObject (o : RowObject).

(** An update callback receives the cached record by reference: the
    first component is that record as the callback leaves it.  The
    callbacks of the model return: one that throws is outside it. *)
Definition UpdateFn : Type := RowObject → RowObject * UpdateResult.

(** [o[k] = v] on the data properties: an existing key keeps its place. *)
Fixpoint assign (k : string) (v : value) (ps : list (string * value)) : list (string * value) :=
  match ps with
  | [] => [(k, v)]
  | (k', v') :: ps' =>
      if decide (k = k') then (k, v) :: ps' else (k', v') :: assign k v ps'
  end.

Definition setProp (o : RowObject) (k : string) (v : value) : RowObject :=
  {| __meta := __meta o; fields := assign k v (fields o) |}.

(** [delete o.__meta] *)
Definition deleteMeta (o : RowObject) : RowObject :=
  {| __meta := None; fields := fields o |}.

(** *** Property enumeration order

    [Object.values] lists array-index keys first, in increasing numeric
    order, then the other string keys in creation order. *)

Definition digit (a : ascii) : option N :=
  let n := N_of_ascii a in
  if ((48 <=? n) && (n <=? 57))%N then Some (n - 48)%N else None.

Fixpoint digits (s : string) (acc : N) : option N :=
  match s with
  | EmptyString => Some acc
  | String a s' => d ← digit a; digits s' (10 * acc + d)%N
  end.

(** A canonical numeric string below 2^32 - 1. *)
Definition arrayIndex (s : string) : option N :=
  match s with
  | EmptyString => None
  | String a s' =>
      if (Ascii.eqb a "0"%char && negb (String.eqb s' EmptyString))%bool then None
      else n ← digits s 0%N; if (n <=? 4294967294)%N then Some n else None
  end.

Fixpoint insertByIndex (e : N * value) (l : list (N * value)) : list (N * value) :=
  match l with
  | [] => [e]
  | e' :: l' => if (e.1 <=? e'.1)%N then e :: l else e' :: insertByIndex e l'
  end.

Definition indexProps (ps : list (string * value)) : list (N * value) :=
  omap (λ p, n ← arrayIndex p.1; Some (n, p.2)) ps.

Definition namedProps (ps : list (string * value)) : list (string * value) :=
  filter (λ p, arrayIndex p.1 = None) ps.

Definition Object_values (o : RowObject) : list value :=
  (foldr insertByIndex [] (indexProps (fields o))).*2 ++ (namedProps (fields o)).*2.

(** ** Exceptions and the result of a call *)

Inductive Error : Type := TypeError.

Inductive Result (A : Type) : Type :=
  | Ok (a : A)
  | Err (e : Error).
Arguments Ok {A} a.
Arguments Err {A} e.

(** ** The spreadsheet service

    The builder reaches its tables only through these operations of
    Google Apps Script ([SpreadsheetApp], [Spreadsheet], [Sheet] and
    [Range]).  [Spreadsheet] is the state of the service, [Sheet] a
    table handle.  [getRange(r, c, nr, nc)] only names a block, so it is
    folded into the operation applied to it.  The operations are total:
    failures inside the service are not modelled. *)
Class BackingStore : Type := {
  Spreadsheet : Type;
  Sheet : Type;
  (** [getSheetByName(name)]: the handle, or [null] *)
  getSheetByName : Spreadsheet → option string → option Sheet;
  getLastRow : Spreadsheet → Sheet → Z;
  getLastColumn : Spreadsheet → Sheet → Z;
  (** [getSheetValues(startRow, startColumn, numRows, numColumns)] *)
  getSheetValues : Spreadsheet → Sheet → Z → Z → Z → Z → list (list value);
  (** [getRange(r, c, nr, nc).deleteCells(SpreadsheetApp.Dimension.ROWS)] *)
  deleteCells : Spreadsheet → Sheet → Z → Z → Z → Z → Spreadsheet;
  (** [getRange(r, c, nr, nc).setValues(values)] *)
  setValues : Spreadsheet → Sheet → Z → Z → Z → Z → list (list value) → Spreadsheet;
  appendRow : Spreadsheet → Sheet → list value → Spreadsheet;
  (** [SpreadsheetApp.flush()] *)
  flush : Spreadsheet → Spreadsheet;
}.

Section Builder.
Context {B : BackingStore}.

(** One entry per call made on the service, oldest first. *)
Inductive Call : Type :=
  | CGetSheetByName (name : option string)
  | CGetLastRow (sh : Sheet)
  | CGetLastColumn (sh : Sheet)
  | CGetSheetValues (sh : Sheet) (startRow startColumn numRows numColumns : Z)
  | CDeleteCells (sh : Sheet) (r c nr nc : Z)
  | CSetValues (sh : Sheet) (r c nr nc : Z) (values : list (list value))
  | CAppendRow (sh : Sheet) (values : list value)
  | CFlush.

(** ** The builder object *)

(** The fields of [SheetQueryBuilder].  [activeSpreadsheet] is the
    service itself and lives in [State].  [_sheet] and [_sheetValues]
    are [None] while they hold [undefined] or [null]; [_sheetHeadings]
    is [None] when it holds [undefined]. *)
Record SheetQueryBuilder : Type := {
  columnNames : list string;
  sheetName : option string;
  whereFn : option WhereFn;
  _sheet : option Sheet;
  _sheetValues : option (list RowObject);
  _sheetHeadings : option (list value);
}.

(** The builder as the constructor leaves it. *)
Definition newBuilder : SheetQueryBuilder :=
  {| columnNames := []; sheetName := None; whereFn := None;
     _sheet := None; _sheetValues := None; _sheetHeadings := Some [] |}.

Definition set_columnNames (x : list string) (b : SheetQueryBuilder) : SheetQueryBuilder :=
  {| columnNames := x; sheetName := sheetName b; whereFn := whereFn b;
     _sheet := _sheet b; _sheetValues := _sheetValues b; _sheetHeadings := _sheetHeadings b |}.
Definition set_sheetName (x : option string) (b : SheetQueryBuilder) : SheetQueryBuilder :=
  {| columnNames := columnNames b; sheetName := x; whereFn := whereFn b;
     _sheet := _sheet b; _sheetValues := _sheetValues b; _sheetHeadings := _sheetHeadings b |}.
Definition set_whereFn (x : option WhereFn) (b : SheetQueryBuilder) : SheetQueryBuilder :=
  {| columnNames := columnNames b; sheetName := sheetName b; whereFn := x;
     _sheet := _sheet b; _sheetValues := _sheetValues b; _sheetHeadings := _sheetHeadings b |}.
Definition set_sheet (x : option Sheet) (b : SheetQueryBuilder) : SheetQueryBuilder :=
  {| columnNames := columnNames b; sheetName := sheetName b; whereFn := whereFn b;
     _sheet := x; _sheetValues := _sheetValues b; _sheetHeadings := _sheetHeadings b |}.
Definition set_sheetValues (x : option (list RowObject)) (b : SheetQueryBuilder) : SheetQueryBuilder :=
  {| columnNames := columnNames b; sheetName := sheetName b; whereFn := whereFn b;
     _sheet := _sheet b; _sheetValues := x; _sheetHeadings := _sheetHeadings b |}.
Definition set_sheetHeadings (x : option (list value)) (b : SheetQueryBuilder) : SheetQueryBuilder :=
  {| columnNames := columnNames b; sheetName := sheetName b; whereFn := whereFn b;
     _sheet := _sheet b; _sheetValues := _sheetValues b; _sheetHeadings := x |}.

(** ** The monad of a method call

    A method runs on the builder ([this]), the service ([app]) and the
    trace of calls made so far.  An exception leaves the builder, the
    service and the trace as they were when it was thrown. *)
Record State : Type := { this : SheetQueryBuilder; app : Spreadsheet; calls : list Call }.

Definition M (A : Type) : Type := State → Result A * State.

Global Instance M_ret : MRet M := λ A a s, (Ok a, s).
Global Instance M_bind : MBind M := λ A C f m s,
  match m s with
  | (Ok a, s') => f a s'
  | (Err e, s') => (Err e, s')
  end.

Definition throw {A} (e : Error) : M A := λ s, (Err e, s).

Definition getThis : M SheetQueryBuilder := λ s, (Ok (this s), s).

Definition modifyThis (f : SheetQueryBuilder → SheetQueryBuilder) : M unit :=
  λ s, (Ok tt, {| this := f (this s); app := app s; calls := calls s |}).

(** A call that reads the service. *)
Definition query {A} (c : Call) (f : Spreadsheet → A) : M A :=
  λ s, (Ok (f (app s)), {| this := this s; app := app s; calls := calls s ++ [c] |}).

(** A call that changes the service. *)
Definition command (c : Call) (f : Spreadsheet → Spreadsheet) : M unit :=
  λ s, (Ok tt, {| this := this s; app := f (app s); calls := calls s ++ [c] |}).

(** A method call or property read on [o]: a [TypeError] on [null] and
    [undefined]. *)
Definition deref {A} (o : option A) : M A :=
  match o with
  | Some a => mret a
  | None => throw TypeError
  end.

(** [l.forEach(f)] *)
Fixpoint forEach {A} (f : A → M unit) (l : list A) : M unit :=
  match l with
  | [] => mret tt
  | x :: l' => _ ← f x; forEach f l'
  end.

(** A loop that carries a local variable from one round to the next. *)
Fixpoint foldM {A S} (f : S → A → M S) (acc : S) (l : list A) : M S :=
  match l with
  | [] => mret acc
  | x :: l' => acc' ← f acc x; foldM f acc' l'
  end.

(** ** The builder methods *)

(** [sheetQuery(activeSpreadsheet)]: a new builder on the service, no
    call made yet. *)
Definition sheetQuery (activeSpreadsheet : Spreadsheet) : State :=
  {| this := newBuilder; app := activeSpreadsheet; calls := [] |}.

(** [select(columnNames)]: a single name or a list of names. *)
Definition select (names : string + list string) : M unit :=
  modifyThis (set_columnNames match names with inl n => [n] | inr l => l end).

(** [from(sheetName)] *)
Definition from (name : string) : M unit :=
  modifyThis (set_sheetName (Some name)).

(** [where(fn)]; the name carries an underscore because [where] is a
    keyword here. *)
Definition where_ (fn : WhereFn) : M unit :=
  modifyThis (set_whereFn (Some fn)).

(** [clearCache()] *)
Definition clearCache : M unit :=
  _ ← modifyThis (set_sheetValues None);
  _ ← modifyThis (set_sheetHeadings (Some []));
  command CFlush flush.

(** [getSheet()] *)
Definition getSheet : M (option Sheet) :=
  b ← getThis;
  match _sheet b with
  | Some sh => mret (Some sh)
  | None =>
      sh ← query (CGetSheetByName (sheetName b)) (λ a, getSheetByName a (sheetName b));
      _ ← modifyThis (set_sheet sh);
      mret sh
  end.

(** The test [!this._sheetHeadings || !this._sheetHeadings.length]. *)
Definition headingsUnloaded (h : option (list value)) : bool :=
  match h with
  | None | Some [] => true
  | Some (_ :: _) => false
  end.

(** [getHeadings()] *)
Definition getHeadings : M (option (list value)) :=
  b ← getThis;
  if headingsUnloaded (_sheetHeadings b) then
    sheet ← getSheet;
    sh ← deref sheet;
    numCols ← query (CGetLastColumn sh) (λ a, getLastColumn a sh);
    block ← query (CGetSheetValues sh 1 1 1 numCols) (λ a, getSheetValues a sh 1 1 1 numCols);
    _ ← modifyThis (set_sheetHeadings (head block));
    mret (head block)
  else mret (_sheetHeadings b).

(** The inner loop of [getValues]: [obj[headings[c]] = sheetValues[r][c]]
    for [c] from 0 below [numCols].  Reading past the end of an array
    gives [undefined]; indexing [headings] when it is [undefined]
    throws. *)
Definition fillRow (headings : option (list value)) (cells : list value)
    (obj : RowObject) (c : nat) : M RowObject :=
  hs ← deref headings;
  mret (setProp obj (toPropertyKey (nth c hs VUndefined)) (nth c cells VUndefined)).

(** The outer loop of [getValues], from block row [r] on. *)
Fixpoint fillRows (headings : option (list value)) (numCols : Z)
    (r : nat) (sheetValues : list (list value)) : M (list RowObject) :=
  match sheetValues with
  | [] => mret []
  | cells :: rest =>
      obj ← foldM (fillRow headings cells)
             {| __meta := Some {| row := Z.of_nat r + 2; cols := numCols |}; fields := [] |}
             (seq 0 (Z.to_nat numCols));
      objs ← fillRows headings numCols (S r) rest;
      mret (obj :: objs)
  end.

(** [getValues()] *)
Definition getValues : M (list RowObject) :=
  b ← getThis;
  match _sheetValues b with
  | Some rowValues => mret rowValues
  | None =>
      sheet ← getSheet;
      sh ← deref sheet;
      numCols ← query (CGetLastColumn sh) (λ a, getLastColumn a sh);
      lastRow ← query (CGetLastRow sh) (λ a, getLastRow a sh);
      sheetValues ← query (CGetSheetValues sh 2 1 lastRow numCols)
                          (λ a, getSheetValues a sh 2 1 lastRow numCols);
      headings ← getHeadings;
      rowValues ← fillRows headings numCols 0 sheetValues;
      _ ← modifyThis (set_sheetValues (Some rowValues));
      mret rowValues
  end.

(** [getRows()] *)
Definition getRows : M (list RowObject) :=
  sheetValues ← getValues;
  b ← getThis;
  match whereFn b with
  | Some fn => mret (List.filter fn sheetValues)
  | None => mret sheetValues
  end.

(** [deleteRows()]: [i] counts the rows deleted so far. *)
Definition deleteRows : M unit :=
  rows ← getRows;
  _ ← foldM (λ (i : Z) (ro : RowObject),
         b ← getThis;
         sh ← deref (_sheet b);
         m ← deref (__meta ro);
         _ ← command (CDeleteCells sh (row m - i) 1 1 (cols m))
                     (λ a, deleteCells a sh (row m - i) 1 1 (cols m));
         mret (i + 1)) 0 rows;
  clearCache.

(** The flat row [updateRows] writes for one record: the callback's
    record when it is set and carries [__meta], else the record the
    callback was given, as it now stands. *)
Definition updatedValues (ro' : RowObject) (res : UpdateResult) : list value :=
  let updatedRow := match res with
                    | RetUndefined => None
                    | RetSame => Some ro'
                    | RetObject o => Some o
                    end in
  match updatedRow with
  | Some o =>
      match __meta o with
      | Some _ => Object_values (deleteMeta o)
      | None => Object_values (deleteMeta ro')
      end
  | None => Object_values (deleteMeta ro')
  end.

(** [updateRows(updateFn)].  The block is named before the callback
    runs, from the metadata the record then carries.  The callback is
    handed the cached record itself; what it, or [delete row.__meta],
    changes in place is not written back to [_sheetValues], which
    [clearCache] drops once the loop is over.  The cache a loop leaves
    when it is cut short (by a callback or a service call that throws)
    is therefore outside the model: no statement below speaks of it. *)
Definition updateRows (updateFn : UpdateFn) : M unit :=
  rows ← getRows;
  _ ← forEach (λ ro : RowObject,
         b ← getThis;
         sh ← deref (_sheet b);
         m ← deref (__meta ro);
         let '(ro', res) := updateFn ro in
         command (CSetValues sh (row m) 1 1 (cols m) [updatedValues ro' res])
                 (λ a, setValues a sh (row m) 1 1 (cols m) [updatedValues ro' res])) rows;
  clearCache.

(** [insertRows(newRows)] *)
Definition insertRows (newRows : list DictObject) : M unit :=
  sheet ← getSheet;
  headings ← getHeadings;
  forEach (λ ro : DictObject,
     hs ← deref headings;
     let rowValues :=
       map (λ heading,
              let v := readProp ro (toPropertyKey heading) in
              if truthy v then v else VStr EmptyString) hs in
     sh ← deref sheet;
     command (CAppendRow sh rowValues) (λ a, appendRow a sh rowValues)) newRows.

End Builder.

(** ** An in-memory table store

    The spreadsheet service itself is outside the repository; the store
    below stands in for it wherever a statement needs concrete tables. *)
Module Grid.

Abbreviation Table := (list (list value)).

Definition blank : value := VStr EmptyString.

Definition table (a : gmap string Table) (sh : string) : Table :=
  default [] (a !! sh).

Definition lookupSheet (a : gmap string Table) (name : option string) : option string :=
  n ← name; _ ← a !! n; Some n.

Definition lastRow (t : Table) : Z := Z.of_nat (length t).

Definition lastColumn (t : Table) : Z := Z.of_nat (max_list (length <$> t)).

(** The block of [nr] rows and [nc] columns at row [r], column [c]: a
    cell the table does not hold reads blank. *)
Definition readBlock (t : Table) (r c nr nc : Z) : list (list value) :=
  (λ k, take (Z.to_nat nc)
          (drop (Z.to_nat (c - 1)) (default [] (t !! (Z.to_nat (r - 1) + k)%nat))
           ++ replicate (Z.to_nat nc) blank))
    <$> seq 0 (Z.to_nat nr).

Definition deleteBlock (t : Table) (r nr : Z) : Table :=
  if ((1 <=? r) && (1 <=? nr))%Z then
    take (Z.to_nat (r - 1)) t ++ drop (Z.to_nat (r - 1) + Z.to_nat nr) t
  else t.

(** [overwrite start vs l]: the cells of [l] from [start] on are
    replaced by those of [vs]; a row that ends before [start] is first
    filled up with blank cells. *)
Definition overwrite (start : nat) (vs l : list value) : list value :=
  take start (l ++ replicate start blank) ++ vs ++ drop (start + length vs) l.

(** The values are stored row by row from row [r], column [c] on, all
    of them; the table grows by empty rows when they reach past its
    last row. *)
Definition writeBlock (t : Table) (r c : Z) (values : list (list value)) : Table :=
  if ((1 <=? r) && (1 <=? c))%Z then
    imap (λ i cells,
            match values !! (i - Z.to_nat (r - 1))%nat with
            | Some vs =>
                if decide (Z.to_nat (r - 1) ≤ i)%nat
                then overwrite (Z.to_nat (c - 1)) vs cells
                else cells
            | None => cells
            end)
         (t ++ replicate (Z.to_nat (r - 1) + length values - length t) [])
  else t.

(** Modelled from the spec: the backing-store collaborator of its
    section 6, whose code is not in the repository.  A table is its list
    of rows, header first: row 1 is the header and the data begins at
    row 2.  The last row is the number of rows, the last column the
    width of the widest row.  A block read returns the rectangular
    block asked for, as many rows and columns as requested, with a
    blank cell wherever the table holds none.  Deleting a block of rows
    removes those of its rows the table holds and moves the later ones
    up.  A write stores the values it is given, from the first cell of
    the block on, past the last row or the end of a row too.  Appending
    adds a row after the last one.
    Nothing is buffered, so flushing changes nothing. *)
Global Instance store : BackingStore := {|
  Spreadsheet := gmap string Table;
  Sheet := string;
  getSheetByName := lookupSheet;
  getLastRow a sh := lastRow (table a sh);
  getLastColumn a sh := lastColumn (table a sh);
  getSheetValues a sh r c nr nc := readBlock (table a sh) r c nr nc;
  deleteCells a sh r c nr nc := alter (λ t, deleteBlock t r nr) sh a;
  setValues a sh r c nr nc values := alter (λ t, writeBlock t r c values) sh a;
  appendRow a sh values := alter (λ t, t ++ [values]) sh a;
  flush a := a;
|}.

(** [sheetQuery(a).from(name)] *)
Definition query (a : gmap string Table) (name : string) : State :=
  (from name (sheetQuery a)).2.

End Grid.

(** ** Vocabulary of the statements *)

Section Vocabulary.
Context {B : BackingStore}.

(** The table [getSheet] hands out in [s]: the cached handle, else the
    one the service finds under the builder's table name. *)
Definition resolved (s : State) : option Sheet :=
  match _sheet (this s) with
  | Some sh => Some sh
  | None => getSheetByName (app s) (sheetName (this s))
  end.

(** What a logged call does to the service. *)
Definition perform (a : Spreadsheet) (call : Call) : Spreadsheet :=
  match call with
  | CDeleteCells sh r c nr nc => deleteCells a sh r c nr nc
  | CSetValues sh r c nr nc values => setValues a sh r c nr nc values
  | CAppendRow sh values => appendRow a sh values
  | CFlush => flush a
  | _ => a
  end.

(** The state after the calls [cs] were made, one after the other. *)
Definition runCalls (cs : list Call) (s : State) : State :=
  {| this := this s; app := foldl perform (app s) cs; calls := calls s ++ cs |}.

Definition withThis (f : SheetQueryBuilder → SheetQueryBuilder) (s : State) : State :=
  {| this := f (this s); app := app s; calls := calls s |}.

(** The calls made between the states [s] and [s']. *)
Definition newCalls (s s' : State) : list Call :=
  drop (length (calls s)) (calls s').

(** The lookup [getSheet] makes when no handle is cached. *)
Definition resolveCalls (s : State) : list Call :=
  match _sheet (this s) with
  | Some _ => []
  | None => [CGetSheetByName (sheetName (this s))]
  end.

(** The state [getSheet] leaves. *)
Definition afterGetSheet (s : State) : State :=
  match _sheet (this s) with
  | Some _ => s
  | None =>
      withThis (set_sheet (getSheetByName (app s) (sheetName (this s))))
        (runCalls [CGetSheetByName (sheetName (this s))] s)
  end.

(** The header read on the table [sh]. *)
Definition headerRead (a : Spreadsheet) (sh : Sheet) : Call :=
  CGetSheetValues sh 1 1 1 (getLastColumn a sh).

Definition headerRow (a : Spreadsheet) (sh : Sheet) : option (list value) :=
  head (getSheetValues a sh 1 1 1 (getLastColumn a sh)).

(** The block read of [getValues] on the table [sh]. *)
Definition blockRead (a : Spreadsheet) (sh : Sheet) : Call :=
  CGetSheetValues sh 2 1 (getLastRow a sh) (getLastColumn a sh).

Definition dataBlock (a : Spreadsheet) (sh : Sheet) : list (list value) :=
  getSheetValues a sh 2 1 (getLastRow a sh) (getLastColumn a sh).

(** A read of cells, and among them those of a data block: the reads
    that start at row 2, column 1. *)
Definition isRead (c : Call) : bool :=
  match c with CGetSheetValues _ _ _ _ _ => true | _ => false end.

Definition isBlockRead (c : Call) : bool :=
  match c with CGetSheetValues _ 2 1 _ _ => true | _ => false end.

Definition isHeaderRead (c : Call) : bool :=
  match c with CGetSheetValues _ 1 1 1 _ => true | _ => false end.

(** A call that changes cells: a positional delete, a positional write
    or an append. *)
Definition isWrite (c : Call) : bool :=
  match c with
  | CDeleteCells _ _ _ _ _ | CSetValues _ _ _ _ _ _ | CAppendRow _ _ => true
  | _ => false
  end.

Definition isFlush (c : Call) : bool :=
  match c with CFlush => true | _ => false end.

Definition isDelete (c : Call) : bool :=
  match c with CDeleteCells _ _ _ _ _ => true | _ => false end.

(** The pairs (heading[c], cell[c]) for [c] from 0 below [numCols]. *)
Definition zipColumns (headings cells : list value) (numCols : Z) : list (string * value) :=
  (λ c, (toPropertyKey (nth c headings VUndefined), nth c cells VUndefined))
    <$> seq 0 (Z.to_nat numCols).

(** The data properties obtained by assigning the pairs in turn. *)
Definition fromEntries (es : list (string * value)) : list (string * value) :=
  foldl (λ ps e, assign e.1 e.2 ps) [] es.

(** The record of the block's physical row [r]. *)
Definition recordOf (headings : list value) (numCols : Z) (r : nat) (cells : list value) : RowObject :=
  {| __meta := Some {| row := Z.of_nat r + 2; cols := numCols |};
     fields := fromEntries (zipColumns headings cells numCols) |}.

(** The records [getValues] makes of a block. *)
Definition materialize (headings : option (list value)) (numCols : Z)
    (block : list (list value)) : list RowObject :=
  imap (λ r cells, recordOf (default [] headings) numCols r cells) block.

(** The heading list [getHeadings] returns in [s] for the table [sh],
    and the calls it makes for it. *)
Definition headingsIn (s : State) (sh : Sheet) : option (list value) :=
  if headingsUnloaded (_sheetHeadings (this s)) then headerRow (app s) sh
  else _sheetHeadings (this s).

(** The headings the builder holds, or would read, for its table have
    no reserved name. *)
Definition plainTable (s : State) : Prop :=
  ∀ sh hs, resolved s = Some sh → headingsIn s sh = Some hs → plainHeadings hs.

Definition headingCalls (s : State) (sh : Sheet) : list Call :=
  if headingsUnloaded (_sheetHeadings (this s))
  then [CGetLastColumn sh; headerRead (app s) sh] else [].

(** The calls of [getValues] on an empty cache, once the table is
    resolved, and the state it leaves with [rows] in the cache. *)
Definition loadCalls (s : State) (sh : Sheet) : list Call :=
  [CGetLastColumn sh; CGetLastRow sh; blockRead (app s) sh] ++ headingCalls s sh.

Definition loaded (s : State) (sh : Sheet) (rows : list RowObject) : State :=
  withThis (set_sheetValues (Some rows))
    (withThis (set_sheetHeadings (headingsIn s sh))
       (runCalls (loadCalls s sh) (afterGetSheet s))).

(** The cache, when loaded, holds the records of a block: the record at
    index [r] carries position [r + 2], all carry one column count, and
    the table handle is set. *)
Definition cacheInv (s : State) : Prop :=
  ∀ rows, _sheetValues (this s) = Some rows →
    is_Some (_sheet (this s)) ∧
    ∃ numCols, ∀ (r : nat) ro, rows !! r = Some ro →
      __meta ro = Some {| row := Z.of_nat r + 2; cols := numCols |}.

(** The positional deletes of [deleteRows] for the records with
    metadata [ms], the first one being number [i]. *)
Fixpoint deleteCalls (sh : Sheet) (i : Z) (ms : list Meta) : list Call :=
  match ms with
  | [] => []
  | m :: ms' => CDeleteCells sh (row m - i) 1 1 (cols m) :: deleteCalls sh (i + 1) ms'
  end.

(** The rows [getRows] selects from the cached sequence. *)
Definition selection (fn : option WhereFn) (rows : list RowObject) : list RowObject :=
  match fn with
  | Some f => List.filter f rows
  | None => rows
  end.

(** The positional write of [updateRows] for the record [ro] with
    metadata [m]. *)
Definition updateCall (sh : Sheet) (updateFn : UpdateFn) (ro : RowObject) (m : Meta) : Call :=
  CSetValues sh (row m) 1 1 (cols m) [updatedValues (updateFn ro).1 (updateFn ro).2].

(** [m] never takes the state outside the relation [R]. *)
Definition respects (R : State → State → Prop) {A} (m : M A) : Prop :=
  ∀ s res s', m s = (res, s') → R s s'.

(** Once set to [sh], the table handle stays. *)
Definition keepsSheet (sh : Sheet) (s s' : State) : Prop :=
  _sheet (this s) = Some sh → _sheet (this s') = Some sh.

(** The row cache stays as it is and no flush is made. *)
Definition keepsRows (s s' : State) : Prop :=
  _sheetValues (this s') = _sheetValues (this s) ∧
  ∃ cs, calls s' = calls s ++ cs ∧ List.filter isFlush cs = [].

(** The cache invariant, once it holds, holds afterwards. *)
Definition keepsInv (s s' : State) : Prop := cacheInv s → cacheInv s'.

(** [m], [n] times in a row. *)
Fixpoint times {A} (n : nat) (m : M A) : M unit :=
  match n with
  | O => mret tt
  | S n' => _ ← m; times n' m
  end.

(** The builder once [clearCache] ran. *)
Definition cleared (b : SheetQueryBuilder) : SheetQueryBuilder :=
  set_sheetHeadings (Some []) (set_sheetValues None b).

(** The cell [insertRows] appends for heading [h] of the record [ro]:
    what [row[heading]] reads when that is truthy, else the empty
    string. *)
Definition appendedCell (ro : DictObject) (h : value) : value :=
  let v := readProp ro (toPropertyKey h) in
  if truthy v then v else VStr EmptyString.

(** The same cell in the words of the placeholder policy: the record's
    value under [h] when it is truthy, the empty string when the key is
    missing or the value is falsy. *)
Definition insertedCell (ro : DictObject) (h : value) : value :=
  match ro !! toPropertyKey h with
  | Some v => if truthy v then v else VStr EmptyString
  | None => VStr EmptyString
  end.

(** ** Vocabulary of the further properties *)

(** [m] does the same whether or not [g] was applied to the builder
    before, and leaves [g]'s change in place. *)
Definition commutes (g : SheetQueryBuilder → SheetQueryBuilder) {A} (m : M A) : Prop :=
  ∀ s, m (withThis g s) = ((m s).1, withThis g (m s).2).

(** Between [s] and [s'] only calls satisfying [P] were made. *)
Definition onlyCalls (P : Call → Prop) (s s' : State) : Prop :=
  ∃ cs, calls s' = calls s ++ cs ∧ Forall P cs.

(** The service is as before and no call made in between writes or
    flushes. *)
Definition readOnly (s s' : State) : Prop :=
  app s' = app s ∧ onlyCalls (λ c, isWrite c = false ∧ isFlush c = false) s s'.

(** What each mutating method may call to change cells. *)
Definition appendsOnly (c : Call) : Prop :=
  isFlush c = false ∧ (isWrite c = true → ∃ sh values, c = CAppendRow sh values).

Definition deletesOnly (c : Call) : Prop :=
  isWrite c = true → ∃ sh r nc, c = CDeleteCells sh r 1 1 nc.

Definition setsOnly (c : Call) : Prop :=
  isWrite c = true → ∃ sh r nc values, c = CSetValues sh r 1 1 nc [values].

(** A method call on the builder, and the state a sequence of calls
    leaves; a call that throws leaves the state it reached. *)
Inductive Op : Type :=
  | OSelect (names : string + list string)
  | OFrom (name : string)
  | OWhere (fn : WhereFn)
  | OGetSheet
  | OGetHeadings
  | OGetValues
  | OGetRows
  | OInsertRows (newRows : list DictObject)
  | OUpdateRows (updateFn : UpdateFn)
  | ODeleteRows
  | OClearCache.

Definition runOp (o : Op) (s : State) : State :=
  match o with
  | OSelect names => (select names s).2
  | OFrom name => (from name s).2
  | OWhere fn => (where_ fn s).2
  | OGetSheet => (getSheet s).2
  | OGetHeadings => (getHeadings s).2
  | OGetValues => (getValues s).2
  | OGetRows => (getRows s).2
  | OInsertRows newRows => (insertRows newRows s).2
  | OUpdateRows updateFn => (updateRows updateFn s).2
  | ODeleteRows => (deleteRows s).2
  | OClearCache => (clearCache s).2
  end.

Definition runOps (ops : list Op) (s : State) : State :=
  foldl (λ s o, runOp o s) s ops.

(** [P] holds in every state the chain [ops] passes through from [s],
    the first and the last included. *)
Fixpoint along (P : State → Prop) (ops : list Op) (s : State) : Prop :=
  P s ∧ match ops with
        | [] => True
        | o :: ops' => along P ops' (runOp o s)
        end.

(** [o[k]] on the data properties: the value under the key [k], if the
    record has that key. *)
Fixpoint lookupProp (k : string) (ps : list (string * value)) : option value :=
  match ps with
  | [] => None
  | (k', v) :: ps' => if decide (k = k') then Some v else lookupProp k ps'
  end.

Definition getProp (o : RowObject) (k : string) : value :=
  match lookupProp k (fields o) with
  | Some v => v
  | None => if bool_decide (k ∈ inheritedNames) then VInherited k else VUndefined
  end.

End Vocabulary.

(** ** Vocabulary for the table store *)

(** The data rows a filter leaves in place, [k] being the index of the
    first row of [l] in the data block. *)
Fixpoint survivors {A} (sel : nat → A → bool) (k : nat) (l : list A) : list A :=
  match l with
  | [] => []
  | x :: l' => if sel k x then survivors sel (S k) l' else x :: survivors sel (S k) l'
  end.

(** The metadata of the rows the filter selects. *)
Fixpoint selectedMetas {A} (sel : nat → A → bool) (numCols : Z) (k : nat) (l : list A) : list Meta :=
  match l with
  | [] => []
  | x :: l' =>
      if sel k x then {| row := Z.of_nat k + 2; cols := numCols |} :: selectedMetas sel numCols (S k) l'
      else selectedMetas sel numCols (S k) l'
  end.

(** The positional deletes of [deleteRows], applied to a table. *)
Fixpoint applyDeletes (i : Z) (ms : list Meta) (t : Grid.Table) : Grid.Table :=
  match ms with
  | [] => t
  | m :: ms' => applyDeletes (i + 1) ms' (Grid.deleteBlock t (row m - i) 1)
  end.

(** Does the filter of [getRows] keep the record? *)
Definition selects (fn : option WhereFn) (ro : RowObject) : bool :=
  match fn with
  | Some f => f ro
  | None => true
  end.

(** A table row as a block read of width [numCols] returns it. *)
Definition padded (numCols : Z) (cells : list value) : list value :=
  take (Z.to_nat numCols) (cells ++ replicate (Z.to_nat numCols) Grid.blank).

(** The row [updateRows] leaves at index [r] of the data block: the
    cells of a selected row are overwritten, from the first on, by the
    flat row computed from its record. *)
Definition rewritten (fn : option WhereFn) (updateFn : UpdateFn) (hs : list value)
    (numCols : Z) (r : nat) (cells : list value) : list value :=
  let ro := recordOf hs numCols r (padded numCols cells) in
  if selects fn ro
  then Grid.overwrite 0 (updatedValues (updateFn ro).1 (updateFn ro).2) cells
  else cells.

(** What [updateRows] leaves below the data rows: nothing, unless the
    filter selects the record of the blank row read past the end, at
    index [r] of the block; then the row written for that record. *)
Definition pastEnd (fn : option WhereFn) (updateFn : UpdateFn) (hs : list value)
    (numCols : Z) (r : nat) : Grid.Table :=
  if selects fn (recordOf hs numCols r (padded numCols []))
  then [rewritten fn updateFn hs numCols r []]
  else [].

(** ** Sample tables *)

Definition demo : gmap string Grid.Table :=
  {[ "S" := [[VStr "A"; VStr "B"]; [VNum 1; VNum 2]; [VNum 3; VNum 4];
             [VNum 5; VNum 6]; [VNum 7; VNum 8]] ]}.

Definition small : gmap string Grid.Table :=
  {[ "T" := [[VStr "A"; VStr "B"]; [VNum 1; VNum 2]] ]}.

(** The data rows of [demo], and the block a read of [demo] from row 2
    on returns when it asks for as many rows as the table has: the data
    rows and the blank row below them. *)
Definition demoData : Grid.Table :=
  [[VNum 1; VNum 2]; [VNum 3; VNum 4]; [VNum 5; VNum 6]; [VNum 7; VNum 8]].

Definition demoBlock : list (list value) :=
  demoData ++ [[VStr EmptyString; VStr EmptyString]].

(** A table with a header row and no data row. *)
Definition headerOnly : gmap string Grid.Table := {[ "H" := [[VStr "A"; VStr "B"]] ]}.

(** A table whose only row has no cell. *)
Definition blankSheet : gmap string Grid.Table := {[ "E" := [[]] ]}.

(** A filter matching positions 2 and 4. *)
Definition pick (ro : RowObject) : bool :=
  match __meta ro with
  | Some m => (row m =? 2) || (row m =? 4)
  | None => false
  end.

(** An update callback that changes nothing and returns nothing. *)
Definition keepAsIs : UpdateFn := λ ro, (ro, RetUndefined).

(** An update callback that sets column [A] of the record it is given
    and returns nothing. *)
Definition overwriteA : UpdateFn := λ ro, (setProp ro "A" (VNum 9), RetUndefined).

(** The one record of the table [small]. *)
Definition smallRow : RowObject :=
  {| __meta := Some {| row := 2; cols := 2 |}; fields := [("A", VNum 1); ("B", VNum 2)] |}.

(** The records a read of [small] yields: the data row and the blank
    row below it. *)
Definition smallRows : list RowObject :=
  [ smallRow;
    {| __meta := Some {| row := 3; cols := 2 |};
       fields := [("A", VStr EmptyString); ("B", VStr EmptyString)] |} ].

(** The sample table with the filter set. *)
Definition demoDelete : State := (where_ pick (Grid.query demo "S")).2.

(** The table [small] with the same filter, which selects its one data
    row. *)
Definition smallPicked : State := (where_ pick (Grid.query small "T")).2.

(** A table whose second heading is a number. *)
Definition ledger : gmap string Grid.Table :=
  {[ "Y" := [[VStr "Name"; VNum 2021]; [VStr "Ada"; VNum 7]] ]}.

(** A table with a column headed [constructor]. *)
Definition projects : gmap string Grid.Table :=
  {[ "P" := [[VStr "constructor"; VStr "A"]] ]}.

(** The rows of the sample table that the filter selects. *)
Definition demoSelected : list RowObject :=
  [ {| __meta := Some {| row := 2; cols := 2 |}; fields := [("A", VNum 1); ("B", VNum 2)] |};
    {| __meta := Some {| row := 4; cols := 2 |}; fields := [("A", VNum 5); ("B", VNum 6)] |} ].

(** A chain of calls on the sample table: read, insert, then filter. *)
Definition demoOps : list Op :=
  [OFrom "S"; OGetRows; OInsertRows [ {[ "A" := VNum 9 ]} ]; OWhere pick].

(** * Properties *)

Lemma pair_fst_eq {A C} (p : A * C) (a : A) : p.1 = a → p = (a, p.2).
Proof. intros <-. by destruct p. Defined.

(** ** What each method does *)

Section BuilderFacts.
Context {B : BackingStore}.

(** Running a bind: an exception of the first part ends the run. *)
Lemma bind_run {A C} (m : M A) (f : A → M C) (s : State) :
  (m ≫= f) s = match m s with
               | (Ok a, s') => f a s'
               | (Err e, s') => (Err e, s')
               end.
Proof. reflexivity. Qed.

Lemma runCalls_nil (s : State) : runCalls [] s = s.
Proof. destruct s. unfold runCalls. simpl. by rewrite app_nil_r. Qed.

Lemma runCalls_app (cs ds : list Call) (s : State) :
  runCalls ds (runCalls cs s) = runCalls (cs ++ ds) s.
Proof. unfold runCalls. simpl. by rewrite foldl_app, app_assoc. Qed.

(** [getSheet] never throws; it looks the table up unless a handle is
    cached. *)
Lemma getSheet_run (s : State) : getSheet s = (Ok (resolved s), afterGetSheet s).
Proof.
  unfold getSheet, resolved, afterGetSheet. rewrite bind_run. simpl.
  destruct (_sheet (this s)); reflexivity.
Qed.

Ltac msimpl :=
  unfold mbind, M_bind, mret, M_ret, deref, query, command, modifyThis, getThis, throw;
  simpl.

Lemma afterGetSheet_app (s : State) : app (afterGetSheet s) = app s.
Proof. unfold afterGetSheet. by destruct (_sheet (this s)). Qed.

Lemma afterGetSheet_sheet (s : State) : _sheet (this (afterGetSheet s)) = resolved s.
Proof. unfold afterGetSheet, resolved. by destruct (_sheet (this s)) eqn:E. Qed.

Lemma afterGetSheet_values (s : State) :
  _sheetValues (this (afterGetSheet s)) = _sheetValues (this s).
Proof. unfold afterGetSheet. by destruct (_sheet (this s)). Qed.

Lemma afterGetSheet_headings (s : State) :
  _sheetHeadings (this (afterGetSheet s)) = _sheetHeadings (this s).
Proof. unfold afterGetSheet. by destruct (_sheet (this s)). Qed.

Lemma afterGetSheet_whereFn (s : State) :
  whereFn (this (afterGetSheet s)) = whereFn (this s).
Proof. unfold afterGetSheet. by destruct (_sheet (this s)). Qed.

(** [getHeadings]: a loaded list is returned as it is; otherwise the
    header is read, which needs the table. *)
Lemma getHeadings_loaded (s : State) :
  headingsUnloaded (_sheetHeadings (this s)) = false →
  getHeadings s = (Ok (_sheetHeadings (this s)), s).
Proof.
  intros H. unfold getHeadings. rewrite bind_run. simpl. by rewrite H.
Qed.

Lemma getHeadings_load (s : State) (sh : Sheet) :
  headingsUnloaded (_sheetHeadings (this s)) = true →
  resolved s = Some sh →
  getHeadings s =
    (Ok (headerRow (app s) sh),
     withThis (set_sheetHeadings (headerRow (app s) sh))
       (runCalls [CGetLastColumn sh; headerRead (app s) sh] (afterGetSheet s))).
Proof.
  intros H Hr. unfold getHeadings. rewrite bind_run. simpl. rewrite H.
  rewrite bind_run, getSheet_run, Hr.
  unfold headerRow, headerRead. rewrite <- (afterGetSheet_app s).
  destruct (afterGetSheet s) as [b a cs]. simpl.
  unfold withThis, runCalls. msimpl. by rewrite <- app_assoc.
Qed.

Lemma getHeadings_null (s : State) :
  headingsUnloaded (_sheetHeadings (this s)) = true →
  resolved s = None →
  getHeadings s = (Err TypeError, afterGetSheet s).
Proof.
  intros H Hr. unfold getHeadings. rewrite bind_run. simpl. rewrite H.
  by rewrite bind_run, getSheet_run, Hr.
Qed.

(** The loops of [getValues] leave the state alone and build the
    records of the block. *)
Lemma fillRow_loop (hs cells : list value) (cs : list nat) (obj : RowObject) (s : State) :
  foldM (fillRow (Some hs) cells) obj cs s =
    (Ok {| __meta := __meta obj;
           fields := foldl (λ ps e, assign e.1 e.2 ps) (fields obj)
                       ((λ c, (toPropertyKey (nth c hs VUndefined), nth c cells VUndefined)) <$> cs) |}, s).
Proof.
  revert obj. induction cs as [|c cs IH]; intros obj; simpl.
  - by destruct obj.
  - rewrite bind_run. simpl. by rewrite IH.
Qed.

Lemma fillRows_run (hs : list value) (numCols : Z) (block : list (list value)) (r : nat) (s : State) :
  fillRows (Some hs) numCols r block s =
    (Ok (imap (λ i cells, recordOf hs numCols (r + i) cells) block), s).
Proof.
  revert r. induction block as [|cells block IH]; intros r; simpl; [done|].
  rewrite bind_run, fillRow_loop. simpl. rewrite bind_run, IH. msimpl.
  rewrite Nat.add_0_r. do 2 f_equal. f_equal.
  apply imap_ext. intros i x _. simpl. by rewrite Nat.add_succ_r.
Qed.

(** With no heading list, the rows can be built only if no cell is
    assigned. *)
Lemma fillRows_undefined (numCols : Z) (block : list (list value)) (r : nat) (s : State) :
  block = [] ∨ Z.to_nat numCols = 0%nat →
  fillRows None numCols r block s =
    (Ok (imap (λ i cells, recordOf [] numCols (r + i) cells) block), s).
Proof.
  intros [->|E]; [done|].
  revert r. induction block as [|cells block IH]; intros r; simpl; [done|].
  rewrite bind_run, E. simpl. rewrite bind_run, IH.
  unfold recordOf, zipColumns. rewrite E. msimpl.
  rewrite Nat.add_0_r. do 2 f_equal. f_equal.
  apply imap_ext. intros i x _. simpl. by rewrite Nat.add_succ_r.
Qed.

Lemma fillRows_throws (numCols : Z) (cells : list value) (block : list (list value))
    (r : nat) (s : State) :
  Z.to_nat numCols ≠ 0%nat →
  fillRows None numCols r (cells :: block) s = (Err TypeError, s).
Proof.
  intros E. simpl. rewrite bind_run.
  destruct (Z.to_nat numCols); [done|]. done.
Qed.

Lemma getHeadings_run (s : State) (sh : Sheet) :
  _sheet (this s) = Some sh →
  getHeadings s =
    (Ok (headingsIn s sh),
     withThis (set_sheetHeadings (headingsIn s sh)) (runCalls (headingCalls s sh) s)).
Proof.
  intros Hs. unfold headingsIn, headingCalls.
  destruct (headingsUnloaded (_sheetHeadings (this s))) eqn:E.
  - rewrite (getHeadings_load s sh E); [|by unfold resolved; rewrite Hs].
    unfold afterGetSheet. by rewrite Hs.
  - rewrite getHeadings_loaded by done. rewrite runCalls_nil.
    destruct s as [[] ? ?]. done.
Qed.

(** [getValues]: a cache hit, a table that does not resolve, and the
    load of an empty cache. *)
Lemma getValues_cached (s : State) (rows : list RowObject) :
  _sheetValues (this s) = Some rows → getValues s = (Ok rows, s).
Proof. intros H. unfold getValues. rewrite bind_run. simpl. by rewrite H. Qed.

Lemma getValues_null (s : State) :
  _sheetValues (this s) = None → resolved s = None →
  getValues s = (Err TypeError, afterGetSheet s).
Proof.
  intros H Hr. unfold getValues. rewrite bind_run. simpl. rewrite H.
  by rewrite bind_run, getSheet_run, Hr.
Qed.

Lemma getValues_start (s : State) (sh : Sheet) :
  _sheetValues (this s) = None → resolved s = Some sh →
  getValues s =
    match fillRows (headingsIn s sh) (getLastColumn (app s) sh) 0 (dataBlock (app s) sh)
            (withThis (set_sheetHeadings (headingsIn s sh))
               (runCalls (loadCalls s sh) (afterGetSheet s))) with
    | (Ok rows, s') => (Ok rows, withThis (set_sheetValues (Some rows)) s')
    | (Err e, s') => (Err e, s')
    end.
Proof.
  intros H Hr. unfold getValues. rewrite bind_run. simpl. rewrite H.
  rewrite bind_run, getSheet_run, Hr.
  pose proof (afterGetSheet_sheet s) as Hsh. rewrite Hr in Hsh.
  pose proof (afterGetSheet_app s) as Ha.
  pose proof (afterGetSheet_headings s) as Hh.
  unfold loadCalls, dataBlock, blockRead, headingsIn, headingCalls, headerRow, headerRead.
  rewrite <- Ha, <- Hh.
  set (s1 := afterGetSheet s) in *. clearbody s1.
  rewrite bind_run. unfold deref at 1. unfold mret at 1, M_ret at 1.
  rewrite bind_run. unfold query at 1. cbn beta iota.
  rewrite bind_run. unfold query at 1. cbn beta iota. cbn [app this calls].
  rewrite bind_run. unfold query at 1. cbn beta iota. cbn [app this calls].
  rewrite bind_run.
  erewrite getHeadings_run by (simpl; exact Hsh).
  unfold headingsIn, headingCalls, headerRow, headerRead. cbn [app this calls].
  rewrite bind_run.
  rewrite <- runCalls_app.
  replace (runCalls [CGetLastColumn sh; CGetLastRow sh;
             CGetSheetValues sh 2 1 (getLastRow (app s1) sh) (getLastColumn (app s1) sh)] s1)
    with {| this := this s1; app := app s1;
            calls := ((calls s1 ++ [CGetLastColumn sh]) ++ [CGetLastRow sh]) ++
                     [CGetSheetValues sh 2 1 (getLastRow (app s1) sh)
                        (getLastColumn (app s1) sh)] |}
    by (unfold runCalls; simpl; by rewrite <- !app_assoc).
  by destruct (fillRows _ _ _ _ _) as [[rows|e] s'].
Qed.

Lemma fillRows_state (hd : option (list value)) (numCols : Z) (block : list (list value))
    (r : nat) (s s' : State) (res : Result (list RowObject)) :
  fillRows hd numCols r block s = (res, s') → s' = s.
Proof.
  destruct hd as [hs|].
  - rewrite fillRows_run. congruence.
  - destruct (decide (Z.to_nat numCols = 0%nat)) as [E|E].
    + rewrite fillRows_undefined by tauto. congruence.
    + destruct block as [|cells block].
      * simpl. unfold mret, M_ret. congruence.
      * rewrite fillRows_throws by done. congruence.
Qed.

(** [getValues] on an empty cache: it returns exactly when the table
    resolves and either a heading list is at hand or no cell has to be
    assigned. *)
Lemma getValues_load (s : State) (sh : Sheet) :
  _sheetValues (this s) = None → resolved s = Some sh →
  (is_Some (headingsIn s sh) ∨ dataBlock (app s) sh = [] ∨
   Z.to_nat (getLastColumn (app s) sh) = 0%nat) →
  let rows := materialize (headingsIn s sh) (getLastColumn (app s) sh) (dataBlock (app s) sh) in
  getValues s = (Ok rows, loaded s sh rows).
Proof.
  intros H Hr Hh rows. rewrite (getValues_start s sh H Hr).
  subst rows. unfold loaded, materialize.
  destruct (headingsIn s sh) as [hs|] eqn:E.
  - by rewrite fillRows_run.
  - rewrite fillRows_undefined; [done|]. destruct Hh as [[? ?]|?]; [done|tauto].
Qed.

Lemma getValues_Ok_inv (s s1 : State) (rows : list RowObject) :
  _sheetValues (this s) = None → getValues s = (Ok rows, s1) →
  ∃ sh, resolved s = Some sh ∧
    rows = materialize (headingsIn s sh) (getLastColumn (app s) sh) (dataBlock (app s) sh) ∧
    s1 = loaded s sh rows.
Proof.
  intros H Hg. destruct (resolved s) as [sh|] eqn:Hr.
  2:{ rewrite getValues_null in Hg by done. discriminate. }
  exists sh. split; [done|].
  destruct (headingsIn s sh) as [hs|] eqn:E.
  - rewrite (getValues_load s sh H Hr) in Hg by (rewrite E; eauto).
    rewrite E in Hg. by injection Hg as <- <-.
  - destruct (decide (Z.to_nat (getLastColumn (app s) sh) = 0%nat)) as [Ez|Ez].
    + rewrite (getValues_load s sh H Hr) in Hg by tauto.
      rewrite E in Hg. by injection Hg as <- <-.
    + destruct (dataBlock (app s) sh) as [|cells block] eqn:Eb.
      * rewrite (getValues_load s sh H Hr) in Hg by tauto.
        rewrite E, Eb in Hg. by injection Hg as <- <-.
      * rewrite (getValues_start s sh H Hr), E, Eb in Hg.
        rewrite fillRows_throws in Hg by done. discriminate.
Qed.

Lemma loaded_sheet (s : State) (sh : Sheet) rows :
  resolved s = Some sh → _sheet (this (loaded s sh rows)) = Some sh.
Proof. intros H. simpl. by rewrite afterGetSheet_sheet. Qed.

Lemma loaded_app (s : State) (sh : Sheet) rows : app (loaded s sh rows) = app s.
Proof.
  simpl. rewrite afterGetSheet_app. unfold headingCalls.
  by destruct (headingsUnloaded _).
Qed.

Lemma loaded_whereFn (s : State) (sh : Sheet) rows :
  whereFn (this (loaded s sh rows)) = whereFn (this s).
Proof. simpl. by rewrite afterGetSheet_whereFn. Qed.

Lemma materialize_lookup hd numCols block (r : nat) ro :
  materialize hd numCols block !! r = Some ro →
  __meta ro = Some {| row := Z.of_nat r + 2; cols := numCols |}.
Proof.
  unfold materialize. rewrite list_lookup_imap.
  destruct (block !! r); simpl; [|done]. by intros [= <-].
Qed.

(** [getValues] establishes the cache invariant. *)
Lemma cacheInv_getValues (s s1 : State) rows :
  cacheInv s → getValues s = (Ok rows, s1) →
  cacheInv s1 ∧ _sheetValues (this s1) = Some rows.
Proof.
  intros Hi Hg. destruct (_sheetValues (this s)) as [rows0|] eqn:E.
  - rewrite (getValues_cached s rows0 E) in Hg. injection Hg as <- <-. done.
  - destruct (getValues_Ok_inv s s1 rows E Hg) as (sh & Hr & Hrows & ->).
    split; [|done]. intros rows' [= <-]. split.
    + rewrite loaded_sheet by done. eauto.
    + eexists. intros r ro Hl. rewrite Hrows in Hl. by eapply materialize_lookup.
Qed.

Lemma headingsIn_afterGetSheet (s : State) (sh : Sheet) :
  headingsIn (afterGetSheet s) sh = headingsIn s sh.
Proof. unfold headingsIn. by rewrite afterGetSheet_headings, afterGetSheet_app. Qed.

Lemma headingCalls_afterGetSheet (s : State) (sh : Sheet) :
  headingCalls (afterGetSheet s) sh = headingCalls s sh.
Proof. unfold headingCalls. by rewrite afterGetSheet_headings, afterGetSheet_app. Qed.

Lemma runCalls_cons (c : Call) (cs : list Call) (s : State) :
  runCalls (c :: cs) s =
    runCalls cs {| this := this s; app := perform (app s) c; calls := calls s ++ [c] |}.
Proof. unfold runCalls. simpl. by rewrite <- app_assoc. Qed.

Lemma clearCache_run (s : State) :
  clearCache s = (Ok tt, withThis cleared (runCalls [CFlush] s)).
Proof. reflexivity. Qed.

(** [getRows] filters what [getValues] returns and changes nothing
    else. *)
Lemma getRows_run (s : State) :
  getRows s = match getValues s with
              | (Ok all, s1) => (Ok (selection (whereFn (this s1)) all), s1)
              | (Err e, s1) => (Err e, s1)
              end.
Proof.
  unfold getRows. rewrite bind_run.
  destruct (getValues s) as [[all|e] s1]; [|done].
  rewrite bind_run. simpl. unfold selection. by destruct (whereFn (this s1)).
Qed.

Lemma getValues_whereFn (s s1 : State) res :
  getValues s = (res, s1) → whereFn (this s1) = whereFn (this s).
Proof.
  intros Hg. destruct (_sheetValues (this s)) as [rows0|] eqn:E.
  - rewrite (getValues_cached s rows0 E) in Hg. by injection Hg as <- <-.
  - destruct (resolved s) as [sh|] eqn:Hr.
    + rewrite (getValues_start s sh E Hr) in Hg.
      destruct (fillRows _ _ _ _ _) as [[rows|e] s'] eqn:Ef;
        apply fillRows_state in Ef; subst s'; injection Hg as <- <-;
        simpl; apply afterGetSheet_whereFn.
    + rewrite getValues_null in Hg by done. injection Hg as <- <-.
      apply afterGetSheet_whereFn.
Qed.

Lemma getRows_Ok_inv (s s1 : State) (rows : list RowObject) :
  getRows s = (Ok rows, s1) →
  ∃ all, getValues s = (Ok all, s1) ∧ rows = selection (whereFn (this s)) all.
Proof.
  rewrite getRows_run. destruct (getValues s) as [[all|e] s'] eqn:Hg; [|done].
  intros [= <- <-]. exists all. split; [done|].
  by rewrite (getValues_whereFn _ _ _ Hg).
Qed.

(** The metadata of a selection of cached records: present on every
    record, with strictly increasing positions. *)
Lemma selection_metas (fn : option WhereFn) (all : list RowObject) (numCols : Z) (k : nat) :
  (∀ (r : nat) ro, all !! r = Some ro →
     __meta ro = Some {| row := Z.of_nat (k + r) + 2; cols := numCols |}) →
  ∃ ms, __meta <$> selection fn all = Some <$> ms ∧
        StronglySorted Z.lt (row <$> ms) ∧
        Forall (λ m, Z.of_nat k + 2 ≤ row m ∧ cols m = numCols) ms.
Proof.
  revert k. induction all as [|ro all IH]; intros k Hall.
  - exists []. destruct fn; simpl; repeat split; constructor.
  - destruct (IH (S k)) as (ms & Hms & Hsort & Hge).
    { intros r ro' Hl. rewrite (Hall (S r) ro' Hl). do 3 f_equal. lia. }
    pose proof (Hall 0%nat ro eq_refl) as Hro. rewrite Nat.add_0_r in Hro.
    assert (Hkeep : ∃ ms',
      __meta <$> ro :: selection fn all = Some <$> ms' ∧
      StronglySorted Z.lt (row <$> ms') ∧
      Forall (λ m, Z.of_nat k + 2 ≤ row m ∧ cols m = numCols) ms').
    { exists ({| row := Z.of_nat k + 2; cols := numCols |} :: ms).
      rewrite !fmap_cons, Hro, Hms. split; [done|]. split.
      - constructor; [done|]. apply Forall_fmap.
        eapply Forall_impl; [exact Hge|]. simpl. intros m [? _]. lia.
      - constructor; [simpl; split; [lia|done]|].
        eapply Forall_impl; [exact Hge|]. simpl. intros m [? ?]. split; [lia|done]. }
    destruct fn as [f|]; simpl in *; [|exact Hkeep].
    destruct (f ro); [exact Hkeep|].
    exists ms. split; [done|]. split; [done|].
    eapply Forall_impl; [exact Hge|]. simpl. intros m [? ?]. split; [lia|done].
Qed.

Lemma deleteCalls_imap (sh : Sheet) (i : Z) (ms : list Meta) :
  deleteCalls sh i ms =
    imap (λ k m, CDeleteCells sh (row m - (i + Z.of_nat k)) 1 1 (cols m)) ms.
Proof.
  revert i. induction ms as [|m ms IH]; intros i; simpl; [done|].
  rewrite Z.add_0_r. f_equal. rewrite IH. apply imap_ext.
  intros k x _. simpl. do 2 f_equal. lia.
Qed.

(** The loop of [deleteRows]. *)
Lemma deleteRows_loop (sh : Sheet) (rows : list RowObject) (ms : list Meta) (i : Z) (s : State) :
  _sheet (this s) = Some sh → __meta <$> rows = Some <$> ms →
  foldM (λ (i : Z) (ro : RowObject),
           b ← getThis;
           sh ← deref (_sheet b);
           m ← deref (__meta ro);
           _ ← command (CDeleteCells sh (row m - i) 1 1 (cols m))
                       (λ a, deleteCells a sh (row m - i) 1 1 (cols m));
           mret (i + 1)) i rows s
  = (Ok (i + Z.of_nat (length rows)), runCalls (deleteCalls sh i ms) s).
Proof.
  intros Hs. revert ms i s Hs.
  induction rows as [|ro rows IH]; intros ms i s Hs Hms.
  - destruct ms; [|done]. simpl. rewrite runCalls_nil. unfold mret, M_ret.
    by rewrite Z.add_0_r.
  - destruct ms as [|m ms]; [done|]. simpl in Hms. injection Hms as Hm Hms.
    cbn [foldM]. rewrite bind_run.
    unfold getThis at 1. rewrite bind_run. cbn beta iota. rewrite Hs, Hm. msimpl.
    rewrite (IH ms) by done. rewrite (runCalls_cons _ _ s). simpl.
    do 2 f_equal. lia.
Qed.

(** The loop of [updateRows]. *)
Lemma updateRows_loop (sh : Sheet) (updateFn : UpdateFn) (rows : list RowObject)
    (ms : list Meta) (s : State) :
  _sheet (this s) = Some sh → __meta <$> rows = Some <$> ms →
  forEach (λ ro : RowObject,
             b ← getThis;
             sh ← deref (_sheet b);
             m ← deref (__meta ro);
             let '(ro', res) := updateFn ro in
             command (CSetValues sh (row m) 1 1 (cols m) [updatedValues ro' res])
                     (λ a, setValues a sh (row m) 1 1 (cols m) [updatedValues ro' res])) rows s
  = (Ok tt, runCalls (zip_with (updateCall sh updateFn) rows ms) s).
Proof.
  intros Hs. revert ms s Hs.
  induction rows as [|ro rows IH]; intros ms s Hs Hms.
  - simpl. by rewrite runCalls_nil.
  - destruct ms as [|m ms]; [done|]. simpl in Hms. injection Hms as Hm Hms.
    cbn [forEach]. rewrite bind_run.
    unfold getThis at 1. rewrite bind_run. cbn beta iota. rewrite Hs, Hm. msimpl.
    unfold updateCall at 1. destruct (updateFn ro) as [ro' res]. simpl.
    rewrite (IH ms) by done. by rewrite (runCalls_cons _ _ s).
Qed.

(** The loop of [insertRows]. *)
Lemma insertRows_loop (sh : Sheet) (hs : list value) (newRows : list DictObject) (s : State) :
  forEach (λ ro : DictObject,
     hs ← deref (Some hs);
     let rowValues :=
       map (λ heading,
              let v := readProp ro (toPropertyKey heading) in
              if truthy v then v else VStr EmptyString) hs in
     sh ← deref (Some sh);
     command (CAppendRow sh rowValues) (λ a, appendRow a sh rowValues)) newRows s
  = (Ok tt, runCalls ((λ ro, CAppendRow sh (appendedCell ro <$> hs)) <$> newRows) s).
Proof.
  revert s. induction newRows as [|ro newRows IH]; intros s.
  - simpl. by rewrite runCalls_nil.
  - cbn [forEach]. rewrite bind_run. msimpl.
    change (map (λ heading : value,
                   if truthy (readProp ro (toPropertyKey heading))
                   then readProp ro (toPropertyKey heading) else VStr EmptyString) hs)
      with (appendedCell ro <$> hs).
    fold (@forEach B DictObject).
    rewrite IH. by rewrite (runCalls_cons _ _ s).
Qed.

Lemma newCalls_app (s s' : State) (cs : list Call) :
  calls s' = calls s ++ cs → newCalls s s' = cs.
Proof. intros H. unfold newCalls. rewrite H. apply drop_app_length. Qed.

Lemma afterGetSheet_resolveCalls (s : State) :
  calls (afterGetSheet s) = calls s ++ resolveCalls s.
Proof.
  unfold afterGetSheet, resolveCalls. destruct (_sheet (this s)); [|done].
  by rewrite app_nil_r.
Qed.

Lemma loaded_calls (s : State) (sh : Sheet) rows :
  calls (loaded s sh rows) = calls s ++ resolveCalls s ++ loadCalls s sh.
Proof. simpl. by rewrite afterGetSheet_resolveCalls, <- app_assoc. Qed.

Lemma filter_isWrite_resolveCalls (s : State) : List.filter isWrite (resolveCalls s) = [].
Proof. unfold resolveCalls. by destruct (_sheet (this s)). Qed.

Lemma filter_isWrite_loadCalls (s : State) (sh : Sheet) :
  List.filter isWrite (loadCalls s sh) = [].
Proof. unfold loadCalls, headingCalls. by destruct (headingsUnloaded _). Qed.

(** [deleteRows], once the rows are selected. *)
Lemma deleteRows_run (s s1 : State) (rows : list RowObject) (sh : Sheet) (ms : list Meta) :
  getRows s = (Ok rows, s1) → _sheet (this s1) = Some sh →
  __meta <$> rows = Some <$> ms →
  deleteRows s = (Ok tt, withThis cleared (runCalls (deleteCalls sh 0 ms ++ [CFlush]) s1)).
Proof.
  intros Hg Hs Hms. unfold deleteRows. rewrite bind_run, Hg.
  rewrite bind_run, (deleteRows_loop sh rows ms 0 s1 Hs Hms).
  by rewrite clearCache_run, runCalls_app.
Qed.

(** [updateRows], once the rows are selected. *)
Lemma updateRows_run (updateFn : UpdateFn) (s s1 : State) (rows : list RowObject)
    (sh : Sheet) (ms : list Meta) :
  getRows s = (Ok rows, s1) → _sheet (this s1) = Some sh →
  __meta <$> rows = Some <$> ms →
  updateRows updateFn s =
    (Ok tt, withThis cleared
              (runCalls (zip_with (updateCall sh updateFn) rows ms ++ [CFlush]) s1)).
Proof.
  intros Hg Hs Hms. unfold updateRows. rewrite bind_run, Hg.
  rewrite bind_run, (updateRows_loop sh updateFn rows ms s1 Hs Hms).
  by rewrite clearCache_run, runCalls_app.
Qed.

(** The rows selected from a well-formed cache: the table handle is
    set, every row carries metadata, and positions increase. *)
Lemma getRows_selected (s s1 : State) (rows : list RowObject) :
  cacheInv s → getRows s = (Ok rows, s1) →
  ∃ sh ms, _sheet (this s1) = Some sh ∧ __meta <$> rows = Some <$> ms ∧
           StronglySorted Z.lt (row <$> ms).
Proof.
  intros Hi Hg. destruct (getRows_Ok_inv s s1 rows Hg) as (all & Hv & ->).
  destruct (cacheInv_getValues s s1 all Hi Hv) as [Hi1 Hc].
  destruct (Hi1 all Hc) as [[sh Hsh] [numCols Hall]].
  destruct (selection_metas (whereFn (this s)) all numCols 0 Hall) as (ms & Hms & Hsort & _).
  by exists sh, ms.
Qed.

(** ** Records and their flat rows *)

Lemma assign_fresh (k : string) (v : value) (ps : list (string * value)) :
  k ∉ ps.*1 → assign k v ps = ps ++ [(k, v)].
Proof.
  induction ps as [|[k' v'] ps IH]; intros Hk; simpl; [done|].
  rewrite fmap_cons in Hk. apply not_elem_of_cons in Hk as [Hne Hk]. simpl in Hne.
  rewrite decide_False by done. by rewrite IH.
Qed.

Lemma foldl_assign_distinct (es acc : list (string * value)) :
  NoDup (acc.*1 ++ es.*1) →
  foldl (λ ps e, assign e.1 e.2 ps) acc es = acc ++ es.
Proof.
  revert acc. induction es as [|[k v] es IH]; intros acc Hnd; simpl.
  - by rewrite app_nil_r.
  - rewrite fmap_cons in Hnd. simpl in Hnd.
    rewrite assign_fresh.
    + rewrite IH; [by rewrite <- app_assoc|].
      rewrite fmap_app. simpl. by rewrite <- app_assoc.
    + apply NoDup_app in Hnd as (_ & Hd & _). intros Hin.
      apply (Hd k Hin). by left.
Qed.

(** With distinct keys, the pairs become the data properties as they
    stand. *)
Lemma fromEntries_distinct (es : list (string * value)) :
  NoDup es.*1 → fromEntries es = es.
Proof. intros H. unfold fromEntries. by rewrite foldl_assign_distinct. Qed.

Lemma zipColumns_from (hs cells : list value) (n k : nat) :
  (k + n ≤ length hs)%nat → (k + n ≤ length cells)%nat →
  (λ c, (toPropertyKey (nth c hs VUndefined), nth c cells VUndefined)) <$> seq k n
  = zip (toPropertyKey <$> take n (drop k hs)) (take n (drop k cells)).
Proof.
  revert k. induction n as [|n IH]; intros k Hh Hc; [done|].
  simpl seq. rewrite fmap_cons, IH by lia.
  destruct (lookup_lt_is_Some_2 hs k) as [h Hh']; [lia|].
  destruct (lookup_lt_is_Some_2 cells k) as [c Hc']; [lia|].
  rewrite (drop_S hs h k Hh'), (drop_S cells c k Hc').
  by rewrite (nth_lookup_Some hs k VUndefined h Hh'),
             (nth_lookup_Some cells k VUndefined c Hc').
Qed.

(** On a row as wide as the heading list, the indexed pairs are the
    plain zip of headings and cells. *)
Lemma zipColumns_zip (hs cells : list value) (numCols : Z) :
  length hs = Z.to_nat numCols → length cells = Z.to_nat numCols →
  zipColumns hs cells numCols = zip (toPropertyKey <$> hs) cells.
Proof.
  intros Hh Hc. unfold zipColumns. rewrite zipColumns_from by (simpl; lia).
  by rewrite !drop_0, <- Hh, firstn_all, Hh, <- Hc, firstn_all.
Qed.

(** The record of a row under distinct headings: each heading with its
    cell, in column order. *)
Lemma recordOf_distinct (hs cells : list value) (numCols : Z) (r : nat) :
  length hs = Z.to_nat numCols → length cells = Z.to_nat numCols →
  NoDup (toPropertyKey <$> hs) →
  recordOf hs numCols r cells =
    {| __meta := Some {| row := Z.of_nat r + 2; cols := numCols |};
       fields := zip (toPropertyKey <$> hs) cells |}.
Proof.
  intros Hh Hc Hnd. unfold recordOf. rewrite zipColumns_zip by done.
  rewrite fromEntries_distinct; [done|].
  rewrite fst_zip; [done|]. rewrite length_fmap. lia.
Qed.

(** Without array-index keys, [Object.values] lists the values in
    creation order. *)
Lemma Object_values_named (m : option Meta) (ps : list (string * value)) :
  Forall (λ p, arrayIndex p.1 = None) ps →
  Object_values {| __meta := m; fields := ps |} = ps.*2.
Proof.
  intros H. unfold Object_values, indexProps, namedProps. simpl.
  replace (omap _ ps) with (@nil (N * value)).
  2:{ induction H as [|p ps Hp _ IH]; [done|]. simpl. by rewrite Hp. }
  simpl. f_equal. induction H as [|p ps Hp _ IH]; [done|].
  rewrite filter_cons_True by done. by rewrite IH.
Qed.

(** A record built from distinct, non-numeric headings flattens back to
    the cells it was built from. *)
Lemma Object_values_recordOf (hs cells : list value) (numCols : Z) (r : nat) :
  length hs = Z.to_nat numCols → length cells = Z.to_nat numCols →
  NoDup (toPropertyKey <$> hs) →
  Forall (λ h, arrayIndex (toPropertyKey h) = None) hs →
  Object_values (deleteMeta (recordOf hs numCols r cells)) = cells.
Proof.
  intros Hh Hc Hnd Hnamed. rewrite recordOf_distinct by done.
  unfold deleteMeta. simpl. rewrite Object_values_named.
  - rewrite snd_zip; [done|]. rewrite length_fmap. lia.
  - apply Forall_forall. intros [k v] Hin. simpl.
    apply elem_of_zip_l in Hin. simpl in Hin.
    apply list_elem_of_fmap in Hin as (h & -> & Hh').
    by eapply Forall_forall in Hnamed.
Qed.

Lemma filter_isBlockRead_loadCalls (s : State) (sh : Sheet) :
  List.filter isBlockRead (resolveCalls s ++ loadCalls s sh) = [blockRead (app s) sh].
Proof.
  unfold resolveCalls, loadCalls, headingCalls, headerRead.
  destruct (_sheet (this s)); destruct (headingsUnloaded _); reflexivity.
Qed.

Lemma filter_isRead_loadCalls (s : State) (sh : Sheet) :
  List.filter isRead (resolveCalls s ++ loadCalls s sh) =
    blockRead (app s) sh ::
    (if headingsUnloaded (_sheetHeadings (this s)) then [headerRead (app s) sh] else []).
Proof.
  unfold resolveCalls, loadCalls, headingCalls, headerRead.
  destruct (_sheet (this s)); destruct (headingsUnloaded _); reflexivity.
Qed.

(** ** Headings *)

Lemma headingsUnloaded_spec (h : option (list value)) :
  headingsUnloaded h = true ↔ h = None ∨ ∃ l, h = Some l ∧ length l = 0%nat.
Proof.
  destruct h as [[|v l]|]; simpl; split; try done; eauto.
  intros [?|(l' & [= <-] & ?)]; done.
Qed.

Lemma getHeadings_reads (s : State) (sh : Sheet) :
  resolved s = Some sh → headingsUnloaded (_sheetHeadings (this s)) = true →
  ∃ s1, getHeadings s = (Ok (headerRow (app s) sh), s1) ∧
        calls s1 = calls s ++ resolveCalls s ++ [CGetLastColumn sh; headerRead (app s) sh] ∧
        _sheetHeadings (this s1) = headerRow (app s) sh ∧
        _sheet (this s1) = Some sh ∧ app s1 = app s.
Proof.
  intros Hr Hu. eexists. split; [by apply getHeadings_load|]. simpl.
  rewrite afterGetSheet_resolveCalls, afterGetSheet_sheet, afterGetSheet_app.
  by rewrite <- app_assoc.
Qed.

(** While the header read yields no column, each further call of
    [getHeadings] reads the header again. *)
Lemma getHeadings_times (n : nat) (s : State) (sh : Sheet) :
  resolved s = Some sh → headingsUnloaded (_sheetHeadings (this s)) = true →
  headingsUnloaded (headerRow (app s) sh) = true →
  ∃ s' cs, times n getHeadings s = (Ok tt, s') ∧ calls s' = calls s ++ cs ∧
           List.filter isHeaderRead cs = replicate n (headerRead (app s) sh).
Proof.
  revert s. induction n as [|n IH]; intros s Hr Hu He.
  - exists s, []. by rewrite app_nil_r.
  - destruct (getHeadings_reads s sh Hr Hu) as (s1 & Hg & Hc & Hh & Hs & Ha).
    destruct (IH s1) as (s' & cs & Ht & Hcs & Hf).
    + unfold resolved. by rewrite Hs.
    + by rewrite Hh.
    + by rewrite Ha.
    + exists s', (resolveCalls s ++ [CGetLastColumn sh; headerRead (app s) sh] ++ cs).
      split; [|split].
      * simpl. by rewrite bind_run, Hg.
      * rewrite Hcs, Hc. by rewrite <- !app_assoc.
      * rewrite !List.filter_app, Hf, Ha. unfold resolveCalls, headerRead.
        by destruct (_sheet (this s)).
Qed.

Lemma truthy_false (v : value) :
  truthy v = false ↔
  v = VUndefined ∨ v = VNull ∨ v = VBool false ∨ v = VNum 0 ∨ v = VNaN ∨ v = VStr EmptyString.
Proof.
  split.
  - destruct v as [| |[]|n| |s|k]; simpl; try done; try naive_solver.
    + rewrite negb_false_iff, Z.eqb_eq. intros ->. naive_solver.
    + rewrite negb_false_iff, String.eqb_eq. intros ->. naive_solver.
  - intros H. repeat (destruct H as [H|H]); by subst.
Qed.

(** [insertRows] on a resolved table with a heading list at hand. *)
Lemma insertRows_run (newRows : list DictObject) (s : State) (sh : Sheet) (hs : list value) :
  resolved s = Some sh → headingsIn s sh = Some hs →
  insertRows newRows s =
    (Ok tt,
     runCalls ((λ ro, CAppendRow sh (appendedCell ro <$> hs)) <$> newRows)
       (withThis (set_sheetHeadings (Some hs))
          (runCalls (headingCalls s sh) (afterGetSheet s)))).
Proof.
  intros Hr Hh. unfold insertRows. rewrite bind_run, getSheet_run, Hr.
  rewrite bind_run, (getHeadings_run (afterGetSheet s) sh)
    by (by rewrite afterGetSheet_sheet).
  rewrite headingsIn_afterGetSheet, headingCalls_afterGetSheet, Hh.
  apply insertRows_loop.
Qed.

(** ** What the methods preserve *)

Section Respects.
Context (R : State → State → Prop) `{!PreOrder R}.

Lemma respects_ret {A} (a : A) : respects R (mret a).
Proof. intros s res s' [= <- <-]. reflexivity. Qed.

Lemma respects_throw {A} (e : Error) : respects R (throw (A := A) e).
Proof. intros s res s' [= <- <-]. reflexivity. Qed.

Lemma respects_getThis : respects R getThis.
Proof. intros s res s' [= <- <-]. reflexivity. Qed.

Lemma respects_deref {A} (o : option A) : respects R (deref o).
Proof. destruct o; [apply respects_ret | apply respects_throw]. Qed.

Lemma respects_bind {A C} (m : M A) (f : A → M C) :
  respects R m → (∀ a, respects R (f a)) → respects R (m ≫= f).
Proof.
  intros Hm Hf s res s'. rewrite bind_run.
  destruct (m s) as [[a|e] s1] eqn:E.
  - intros Hk. transitivity s1; [by eapply Hm | by eapply Hf].
  - intros [= <- <-]. by eapply Hm.
Qed.

Lemma respects_forEach {A} (f : A → M unit) (l : list A) :
  (∀ x, respects R (f x)) → respects R (forEach f l).
Proof.
  intros Hf. induction l as [|x l IH]; simpl.
  - apply respects_ret.
  - apply respects_bind; [apply Hf | by intros _].
Qed.

Lemma respects_foldM {A S} (f : S → A → M S) (acc : S) (l : list A) :
  (∀ acc x, respects R (f acc x)) → respects R (foldM f acc l).
Proof.
  intros Hf. revert acc. induction l as [|x l IH]; intros acc; simpl.
  - apply respects_ret.
  - apply respects_bind; [apply Hf | apply IH].
Qed.

Lemma respects_modifyThis (f : SheetQueryBuilder → SheetQueryBuilder) :
  (∀ s, R s (withThis f s)) → respects R (modifyThis f).
Proof. intros H s res s' [= <- <-]. apply H. Qed.

Lemma respects_query {A} (c : Call) (f : Spreadsheet → A) :
  (∀ s, R s {| this := this s; app := app s; calls := calls s ++ [c] |}) →
  respects R (query c f).
Proof. intros H s res s' [= <- <-]. apply H. Qed.

Lemma respects_command (c : Call) (f : Spreadsheet → Spreadsheet) :
  (∀ s, R s {| this := this s; app := f (app s); calls := calls s ++ [c] |}) →
  respects R (command c f).
Proof. intros H s res s' [= <- <-]. apply H. Qed.
End Respects.

Global Instance keepsSheet_preorder (sh : Sheet) : PreOrder (keepsSheet sh).
Proof.
  split.
  - intros s H. exact H.
  - intros s1 s2 s3 H1 H2 H. apply H2, H1, H.
Qed.

Global Instance keepsRows_preorder : PreOrder keepsRows.
Proof.
  split.
  - intros s. split; [done|]. exists []. by rewrite app_nil_r.
  - intros s1 s2 s3 [H1 (cs & Hc & Hf)] [H2 (ds & Hd & Hg)]. split; [congruence|].
    exists (cs ++ ds). rewrite Hd, Hc, <- app_assoc. split; [done|].
    by rewrite List.filter_app, Hf, Hg.
Qed.

Lemma keepsRows_call (c : Call) (s : State) (a : Spreadsheet) :
  isFlush c = false →
  keepsRows s {| this := this s; app := a; calls := calls s ++ [c] |}.
Proof. intros H. split; [done|]. exists [c]. simpl. by rewrite H. Qed.

Create HintDb respects.

Ltac preorder := try match goal with |- PreOrder _ => typeclasses eauto end.

Ltac respects_step :=
  first
    [ solve [auto with respects]
    | apply respects_ret; preorder | apply respects_throw; preorder
    | apply respects_getThis; preorder
    | apply respects_deref; preorder | apply respects_forEach; preorder
    | apply respects_foldM; preorder
    | apply respects_bind; preorder | apply respects_modifyThis; preorder
    | apply respects_query; preorder | apply respects_command; preorder
    | progress intros
    | match goal with
      | |- respects _ (match ?x with _ => _ end) => destruct x
      | |- respects _ (if ?x then _ else _) => destruct x
      | |- respects _ (let '(_, _) := ?x in _) => destruct x
      | |- keepsSheet _ _ _ => let H := fresh in intros H; exact H
      end ].

Ltac respects_tac := repeat respects_step.

Lemma getSheet_keepsSheet (sh : Sheet) : respects (keepsSheet sh) getSheet.
Proof.
  intros s res s'. rewrite getSheet_run. intros [= <- <-]. unfold keepsSheet. intros H.
  unfold afterGetSheet. by rewrite !H.
Qed.
#[local] Hint Resolve getSheet_keepsSheet : respects.

Lemma getHeadings_keepsSheet (sh : Sheet) : respects (keepsSheet sh) getHeadings.
Proof. unfold getHeadings. respects_tac. Qed.
#[local] Hint Resolve getHeadings_keepsSheet : respects.

Lemma fillRows_respects (R : State → State → Prop) `{!PreOrder R}
    (hd : option (list value)) (numCols : Z) (r : nat) (block : list (list value)) :
  respects R (fillRows hd numCols r block).
Proof.
  intros s res s' H. apply fillRows_state in H. subst s'. reflexivity.
Qed.

Lemma getValues_keepsSheet (sh : Sheet) : respects (keepsSheet sh) getValues.
Proof.
  unfold getValues. respects_tac. apply fillRows_respects; preorder.
Qed.
#[local] Hint Resolve getValues_keepsSheet : respects.

Lemma getRows_keepsSheet (sh : Sheet) : respects (keepsSheet sh) getRows.
Proof. unfold getRows. respects_tac. Qed.
#[local] Hint Resolve getRows_keepsSheet : respects.

Lemma clearCache_keepsSheet (sh : Sheet) : respects (keepsSheet sh) clearCache.
Proof. unfold clearCache. respects_tac. Qed.
#[local] Hint Resolve clearCache_keepsSheet : respects.

Lemma deleteRows_keepsSheet (sh : Sheet) : respects (keepsSheet sh) deleteRows.
Proof. unfold deleteRows. respects_tac. Qed.

Lemma updateRows_keepsSheet (sh : Sheet) (updateFn : UpdateFn) :
  respects (keepsSheet sh) (updateRows updateFn).
Proof. unfold updateRows. respects_tac. Qed.

Lemma insertRows_keepsSheet (sh : Sheet) (newRows : list DictObject) :
  respects (keepsSheet sh) (insertRows newRows).
Proof. unfold insertRows. respects_tac. Qed.

(** [insertRows] neither touches the row cache nor flushes. *)
Lemma insertRows_keepsRows (newRows : list DictObject) : respects keepsRows (insertRows newRows).
Proof.
  unfold insertRows, getHeadings, getSheet.
  respects_tac; try (by apply keepsRows_call).
  all: split; [done|]; exists []; by rewrite app_nil_r.
Qed.

Lemma getSheet_cached (s : State) (sh : Sheet) :
  _sheet (this s) = Some sh → getSheet s = (Ok (Some sh), s).
Proof.
  intros H. rewrite getSheet_run. unfold resolved, afterGetSheet. by rewrite H.
Qed.

Lemma getSheet_first (s : State) :
  _sheet (this s) = None →
  getSheet s =
    (Ok (getSheetByName (app s) (sheetName (this s))),
     withThis (set_sheet (getSheetByName (app s) (sheetName (this s))))
       (runCalls [CGetSheetByName (sheetName (this s))] s)).
Proof.
  intros H. rewrite getSheet_run. unfold resolved, afterGetSheet. by rewrite H.
Qed.

(** What [updateRows] and [deleteRows] leave behind when they return. *)
Lemma updateRows_Ok_inv (updateFn : UpdateFn) (s s' : State) :
  cacheInv s → updateRows updateFn s = (Ok tt, s') →
  ∃ rows s1 sh ms,
    getRows s = (Ok rows, s1) ∧ _sheet (this s1) = Some sh ∧
    __meta <$> rows = Some <$> ms ∧
    s' = withThis cleared
           (runCalls (zip_with (updateCall sh updateFn) rows ms ++ [CFlush]) s1).
Proof.
  intros Hi Hu. destruct (getRows s) as [[rows|e] s1] eqn:Hg.
  - destruct (getRows_selected s s1 rows Hi Hg) as (sh & ms & Hsh & Hms & _).
    rewrite (updateRows_run updateFn s s1 rows sh ms Hg Hsh Hms) in Hu.
    injection Hu as <-. by exists rows, s1, sh, ms.
  - unfold updateRows in Hu. rewrite bind_run, Hg in Hu. discriminate.
Qed.

Lemma deleteRows_Ok_inv (s s' : State) :
  cacheInv s → deleteRows s = (Ok tt, s') →
  ∃ rows s1 sh ms,
    getRows s = (Ok rows, s1) ∧ _sheet (this s1) = Some sh ∧
    __meta <$> rows = Some <$> ms ∧
    s' = withThis cleared (runCalls (deleteCalls sh 0 ms ++ [CFlush]) s1).
Proof.
  intros Hi Hu. destruct (getRows s) as [[rows|e] s1] eqn:Hg.
  - destruct (getRows_selected s s1 rows Hi Hg) as (sh & ms & Hsh & Hms & _).
    rewrite (deleteRows_run s s1 rows sh ms Hg Hsh Hms) in Hu.
    injection Hu as <-. by exists rows, s1, sh, ms.
  - unfold deleteRows in Hu. rewrite bind_run, Hg in Hu. discriminate.
Qed.

Lemma updatedValues_fallback (ro' : RowObject) (res : UpdateResult) :
  res = RetUndefined ∨ (∃ o, res = RetObject o ∧ __meta o = None) →
  updatedValues ro' res = Object_values (deleteMeta ro').
Proof. intros [->|(o & -> & Ho)]; unfold updatedValues; [done|by rewrite Ho]. Qed.

Lemma updatedValues_same (ro' : RowObject) :
  updatedValues ro' RetSame = Object_values (deleteMeta ro').
Proof. unfold updatedValues. by destruct (__meta ro'). Qed.

Lemma updatedValues_replaced (ro' o : RowObject) (m : Meta) :
  __meta o = Some m → updatedValues ro' (RetObject o) = Object_values (deleteMeta o).
Proof. intros H. unfold updatedValues. by rewrite H. Qed.

Lemma filter_isWrite_updateCalls (sh : Sheet) (updateFn : UpdateFn)
    (rows : list RowObject) (ms : list Meta) :
  List.filter isWrite (zip_with (updateCall sh updateFn) rows ms ++ [CFlush])
  = zip_with (updateCall sh updateFn) rows ms.
Proof.
  rewrite List.filter_app. simpl. rewrite app_nil_r.
  revert ms. induction rows as [|ro rows IH]; intros [|m ms]; try done.
  cbn [zip_with List.filter]. unfold updateCall at 1. cbn [isWrite]. by rewrite IH.
Qed.

(** ** The cache invariant along every method *)


Global Instance keepsInv_preorder : PreOrder keepsInv.
Proof.
  split.
  - intros s H. exact H.
  - intros s1 s2 s3 H1 H2 H. apply H2, H1, H.
Qed.

Lemma cacheInv_empty (s : State) : _sheetValues (this s) = None → cacheInv s.
Proof. intros H rows Hr. congruence. Qed.

Lemma cacheInv_sheetQuery (a : Spreadsheet) : cacheInv (sheetQuery a).
Proof. by apply cacheInv_empty. Qed.

Lemma cacheInv_same (s s' : State) :
  _sheetValues (this s') = _sheetValues (this s) → _sheet (this s') = _sheet (this s) →
  keepsInv s s'.
Proof. intros Hv Hs Hi rows Hr. rewrite Hs. apply Hi. congruence. Qed.

Lemma getSheet_keepsInv : respects keepsInv getSheet.
Proof.
  intros s res s'. rewrite getSheet_run. intros [= <- <-] Hi rows.
  rewrite afterGetSheet_values. intros Hr. destruct (Hi rows Hr) as [[sh Hs] Hm].
  unfold afterGetSheet. by rewrite Hs.
Qed.

Lemma getValues_keepsInv : respects keepsInv getValues.
Proof.
  intros s res s' Hg Hi.
  destruct res as [rows|e]; [by destruct (cacheInv_getValues s s' rows Hi Hg)|].
  destruct (_sheetValues (this s)) as [rows0|] eqn:E.
  { rewrite (getValues_cached s rows0 E) in Hg. discriminate. }
  apply cacheInv_empty. destruct (resolved s) as [sh|] eqn:Hr.
  - rewrite (getValues_start s sh E Hr) in Hg.
    destruct (fillRows _ _ _ _ _) as [[rows|e'] s1] eqn:Ef; [discriminate|].
    apply fillRows_state in Ef. injection Hg as _ <-. subst s1. simpl.
    by rewrite afterGetSheet_values.
  - rewrite getValues_null in Hg by done. injection Hg as _ <-.
    by rewrite afterGetSheet_values.
Qed.

Ltac keepsInv_tac :=
  repeat first [ respects_step | solve [apply cacheInv_same; done] ].

#[local] Hint Resolve getSheet_keepsInv getValues_keepsInv : respects.

Lemma getHeadings_keepsInv : respects keepsInv getHeadings.
Proof. unfold getHeadings. keepsInv_tac. Qed.

Lemma getRows_keepsInv : respects keepsInv getRows.
Proof. unfold getRows. keepsInv_tac. Qed.

Lemma clearCache_keepsInv : respects keepsInv clearCache.
Proof.
  intros s res s'. rewrite clearCache_run. intros [= <- <-] _.
  by apply cacheInv_empty.
Qed.

#[local] Hint Resolve getHeadings_keepsInv getRows_keepsInv clearCache_keepsInv : respects.

Lemma deleteRows_keepsInv : respects keepsInv deleteRows.
Proof. unfold deleteRows. keepsInv_tac. Qed.

Lemma updateRows_keepsInv (updateFn : UpdateFn) : respects keepsInv (updateRows updateFn).
Proof. unfold updateRows. keepsInv_tac. Qed.

Lemma insertRows_keepsInv (newRows : list DictObject) : respects keepsInv (insertRows newRows).
Proof. unfold insertRows. keepsInv_tac. Qed.

Lemma select_keepsInv names : respects keepsInv (select names).
Proof. unfold select. keepsInv_tac. Qed.

Lemma from_keepsInv name : respects keepsInv (from name).
Proof. unfold from. keepsInv_tac. Qed.

Lemma where_keepsInv fn : respects keepsInv (where_ fn).
Proof. unfold where_. keepsInv_tac. Qed.

(** ** The selection *)

Lemma getValues_caches (s s1 : State) (all : list RowObject) :
  getValues s = (Ok all, s1) → _sheetValues (this s1) = Some all.
Proof.
  intros Hg. destruct (_sheetValues (this s)) as [rows0|] eqn:E.
  - rewrite (getValues_cached s rows0 E) in Hg. injection Hg as <- <-. done.
  - by destruct (getValues_Ok_inv s s1 all E Hg) as (sh & _ & _ & ->).
Qed.

Lemma selection_sublist (fn : option WhereFn) (all : list RowObject) :
  sublist (selection fn all) all.
Proof.
  destruct fn as [f|]; simpl; [|done].
  induction all as [|ro all IH]; simpl; [done|].
  destruct (f ro); by constructor.
Qed.

Lemma selection_elem (fn : option WhereFn) (all : list RowObject) (ro : RowObject) :
  ro ∈ selection fn all ↔ ro ∈ all ∧ selects fn ro = true.
Proof.
  destruct fn as [f|]; simpl; [|split; [done|by intros []]].
  rewrite !list_elem_of_In, List.filter_In. done.
Qed.

(** ** A table that does not resolve *)

Lemma getRows_null (s : State) :
  _sheetValues (this s) = None → resolved s = None →
  getRows s = (Err TypeError, afterGetSheet s).
Proof. intros Hc Hr. by rewrite getRows_run, getValues_null. Qed.

Lemma afterGetSheet_unresolved (s : State) :
  resolved s = None →
  afterGetSheet s = runCalls [CGetSheetByName (sheetName (this s))] s.
Proof.
  unfold resolved, afterGetSheet. destruct (_sheet (this s)) eqn:E; [done|].
  intros ->. destruct s as [[] ? ?]. simpl in *. by subst.
Qed.

(** ** Reading a record by key *)

Lemma lookupProp_assign_eq (k : string) (v : value) (ps : list (string * value)) :
  lookupProp k (assign k v ps) = Some v.
Proof.
  induction ps as [|[k' v'] ps IH]; simpl; [by rewrite decide_True|].
  destruct (decide (k = k')) as [->|Hne]; simpl.
  - by rewrite decide_True.
  - by rewrite decide_False.
Qed.

Lemma lookupProp_assign_ne (k k0 : string) (v : value) (ps : list (string * value)) :
  k0 ≠ k → lookupProp k0 (assign k v ps) = lookupProp k0 ps.
Proof.
  intros Hne. induction ps as [|[k' v'] ps IH]; simpl; [by rewrite decide_False|].
  destruct (decide (k = k')) as [->|Hk]; simpl.
  - by rewrite !decide_False.
  - destruct (decide (k0 = k')); [done|exact IH].
Qed.

Lemma assign_keys (k : string) (v : value) (ps : list (string * value)) :
  (assign k v ps).*1 = if decide (k ∈ ps.*1) then ps.*1 else ps.*1 ++ [k].
Proof.
  induction ps as [|[k' v'] ps IH]; [done|].
  cbn [assign]. destruct (decide (k = k')) as [->|Hk]; rewrite !fmap_cons; cbn [fst].
  - rewrite decide_True; [done|]. by left.
  - rewrite IH. destruct (decide (k ∈ ps.*1)) as [Hin|Hin].
    + rewrite decide_True; [done|]. by right.
    + rewrite decide_False; [done|]. by intros [?|?]%elem_of_cons.
Qed.

Lemma assign_NoDup (k : string) (v : value) (ps : list (string * value)) :
  NoDup ps.*1 → NoDup (assign k v ps).*1.
Proof.
  intros H. rewrite assign_keys. destruct (decide (k ∈ ps.*1)); [done|].
  apply NoDup_app. split; [done|]. split; [|apply NoDup_singleton].
  intros x Hx ->%list_elem_of_singleton. done.
Qed.

Lemma foldl_assign_NoDup (es acc : list (string * value)) :
  NoDup acc.*1 → NoDup (foldl (λ ps e, assign e.1 e.2 ps) acc es).*1.
Proof.
  revert acc. induction es as [|e es IH]; intros acc H; simpl; [done|].
  by apply IH, assign_NoDup.
Qed.

(** After a run of assignments, a key that none of them names reads as
    before, and a key named last by [(k, v)] reads [v]. *)
Lemma foldl_assign_lookup_last (es es' acc : list (string * value)) (k : string) (v : value) :
  k ∉ es'.*1 →
  lookupProp k (foldl (λ ps e, assign e.1 e.2 ps) acc (es ++ (k, v) :: es')) = Some v.
Proof.
  intros Hk. rewrite foldl_app. simpl.
  generalize (foldl (λ ps e, assign e.1 e.2 ps) acc es). intros acc'.
  assert (H : lookupProp k (assign k v acc') = Some v) by apply lookupProp_assign_eq.
  revert H. generalize (assign k v acc'). clear acc'.
  induction es' as [|[k' v'] es' IH]; intros ps Hps; simpl; [done|].
  rewrite fmap_cons in Hk. apply not_elem_of_cons in Hk as [Hne Hk]. simpl in Hne.
  apply IH; [done|]. by rewrite lookupProp_assign_ne.
Qed.

Lemma recordOf_NoDup (hs cells : list value) (numCols : Z) (r : nat) :
  NoDup (fields (recordOf hs numCols r cells)).*1.
Proof. apply foldl_assign_NoDup. constructor. Qed.

(** Reading a record under the heading of column [c] gives the cell of
    that column, unless a later column bears the same heading. *)
Lemma recordOf_getProp (hs cells : list value) (numCols : Z) (r c : nat) :
  (c < Z.to_nat numCols)%nat →
  (∀ c', (c < c' < Z.to_nat numCols)%nat →
     toPropertyKey (nth c' hs VUndefined) ≠ toPropertyKey (nth c hs VUndefined)) →
  getProp (recordOf hs numCols r cells) (toPropertyKey (nth c hs VUndefined))
  = nth c cells VUndefined.
Proof.
  intros Hc Hlast.
  enough (H : lookupProp (toPropertyKey (nth c hs VUndefined))
                (fields (recordOf hs numCols r cells)) = Some (nth c cells VUndefined))
    by (unfold getProp; by rewrite H).
  unfold recordOf, fromEntries, zipColumns. simpl.
  set (f := λ c0, (toPropertyKey (nth c0 hs VUndefined), nth c0 cells VUndefined)).
  replace (seq 0 (Z.to_nat numCols))
    with (seq 0 c ++ c :: seq (S c) (Z.to_nat numCols - S c)).
  2:{ change (c :: seq (S c) (Z.to_nat numCols - S c))
        with (seq c (S (Z.to_nat numCols - S c))).
      rewrite <- seq_app. f_equal. lia. }
  rewrite fmap_app, fmap_cons.
  change (f c) with (toPropertyKey (nth c hs VUndefined), nth c cells VUndefined).
  rewrite foldl_assign_lookup_last; [done|].
  rewrite <- list_fmap_compose. intros Hin.
  apply list_elem_of_fmap in Hin as (c' & Heq & Hc').
  apply elem_of_seq in Hc'. simpl in Heq. apply (Hlast c'); [lia|done].
Qed.

Lemma Object_values_swapped (h1 h2 c1 c2 : value) (r : nat) (n : N) :
  arrayIndex (toPropertyKey h1) = None → arrayIndex (toPropertyKey h2) = Some n →
  Object_values (deleteMeta (recordOf [h1; h2] 2 r [c1; c2])) = [c2; c1].
Proof.
  intros H1 H2. unfold recordOf, zipColumns, fromEntries, Object_values, deleteMeta,
    indexProps, namedProps. simpl.
  rewrite decide_False by congruence. simpl. rewrite H1, H2. simpl.
  rewrite filter_cons_True by done. rewrite filter_cons_False by (simpl; congruence).
  done.
Qed.

Lemma materialize_flatten (hs : list value) (numCols : Z) (block : list (list value))
    (k : nat) :
  length hs = Z.to_nat numCols → NoDup (toPropertyKey <$> hs) →
  Forall (λ h, arrayIndex (toPropertyKey h) = None) hs →
  Forall (λ cells, length cells = Z.to_nat numCols) block →
  (λ ro, Object_values (deleteMeta ro))
    <$> imap (λ r cells, recordOf hs numCols (k + r) cells) block = block.
Proof.
  intros Hlen Hnd Hnamed Hrect. revert k.
  induction Hrect as [|cells block Hcells _ IH]; intros k; [done|].
  rewrite imap_cons, fmap_cons. f_equal.
  - by apply Object_values_recordOf.
  - rewrite <- (IH (S k)) at 2. f_equal.
    apply imap_ext. intros r x _. simpl. by rewrite Nat.add_succ_r.
Qed.

(** ** Methods that ignore a field of the builder *)

Section Commutes.
Context (g : SheetQueryBuilder → SheetQueryBuilder).

Lemma commutes_ret {A} (a : A) : commutes g (mret a).
Proof. by intros s. Qed.

Lemma commutes_throw {A} (e : Error) : commutes g (throw (A := A) e).
Proof. by intros s. Qed.

Lemma commutes_deref {A} (o : option A) : commutes g (deref o).
Proof. by destruct o. Qed.

Lemma commutes_query {A} (c : Call) (f : Spreadsheet → A) : commutes g (query c f).
Proof. by intros s. Qed.

Lemma commutes_command (c : Call) (f : Spreadsheet → Spreadsheet) : commutes g (command c f).
Proof. by intros s. Qed.

Lemma commutes_modifyThis (f : SheetQueryBuilder → SheetQueryBuilder) :
  (∀ b, f (g b) = g (f b)) → commutes g (modifyThis f).
Proof. intros H s. unfold modifyThis, withThis. simpl. by rewrite H. Qed.

Lemma commutes_bind {A C} (m : M A) (k : A → M C) :
  commutes g m → (∀ a, commutes g (k a)) → commutes g (m ≫= k).
Proof.
  intros Hm Hk s. rewrite !bind_run, Hm.
  destruct (m s) as [[a|e] s1]; simpl; [apply Hk|done].
Qed.

(** A method that reads the builder commutes when what it goes on to
    do does not depend on what [g] changes. *)
Lemma commutes_getThis_bind {A} (k : SheetQueryBuilder → M A) :
  (∀ b, k (g b) = k b) → (∀ b, commutes g (k b)) → commutes g (getThis ≫= k).
Proof.
  intros Hg Hk s. rewrite !bind_run. simpl. rewrite Hg. apply Hk.
Qed.

Lemma commutes_forEach {A} (f : A → M unit) (l : list A) :
  (∀ x, commutes g (f x)) → commutes g (forEach f l).
Proof.
  intros Hf. induction l as [|x l IH]; simpl.
  - apply commutes_ret.
  - apply commutes_bind; [apply Hf | by intros _].
Qed.

Lemma commutes_foldM {A S} (f : S → A → M S) (acc : S) (l : list A) :
  (∀ acc x, commutes g (f acc x)) → commutes g (foldM f acc l).
Proof.
  intros Hf. revert acc. induction l as [|x l IH]; intros acc; simpl.
  - apply commutes_ret.
  - apply commutes_bind; [apply Hf | apply IH].
Qed.
End Commutes.

Lemma fillRows_commutes (g : SheetQueryBuilder → SheetQueryBuilder)
    (hd : option (list value)) (numCols : Z) (r : nat) (block : list (list value)) :
  commutes g (fillRows hd numCols r block).
Proof.
  intros s.
  destruct (fillRows hd numCols r block s) as [res s'] eqn:E.
  destruct (fillRows hd numCols r block (withThis g s)) as [res' s''] eqn:E'.
  pose proof (fillRows_state _ _ _ _ _ _ _ E) as ->.
  pose proof (fillRows_state _ _ _ _ _ _ _ E') as ->.
  simpl. f_equal.
  destruct hd as [hs|].
  - rewrite fillRows_run in E, E'. congruence.
  - destruct (decide (Z.to_nat numCols = 0%nat)) as [Ez|Ez].
    + rewrite fillRows_undefined in E, E' by tauto. congruence.
    + destruct block as [|cells block].
      * simpl in E, E'. unfold mret, M_ret in *. congruence.
      * rewrite fillRows_throws in E, E' by done. congruence.
Qed.

Ltac commutes_tac :=
  repeat first
    [ apply fillRows_commutes | apply commutes_ret | apply commutes_throw | apply commutes_deref
    | apply commutes_query | apply commutes_command
    | apply commutes_forEach | apply commutes_foldM
    | apply commutes_getThis_bind; [reflexivity|]
    | apply commutes_bind
    | apply commutes_modifyThis; reflexivity
    | progress intros
    | match goal with
      | |- commutes _ (match ?x with _ => _ end) => destruct x
      | |- commutes _ (if ?x then _ else _) => destruct x
      | |- commutes _ (let '(_, _) := ?x in _) => destruct x
      end ].

Section Select.
Context (names : list string).

Lemma getSheet_ignores_columnNames : commutes (set_columnNames names) getSheet.
Proof. unfold getSheet. commutes_tac. Qed.

Lemma getHeadings_ignores_columnNames : commutes (set_columnNames names) getHeadings.
Proof. unfold getHeadings, getSheet. commutes_tac. Qed.

Lemma getValues_ignores_columnNames : commutes (set_columnNames names) getValues.
Proof. unfold getValues, getHeadings, getSheet. commutes_tac. Qed.

Lemma getRows_ignores_columnNames : commutes (set_columnNames names) getRows.
Proof.
  unfold getRows. apply commutes_bind; [apply getValues_ignores_columnNames|].
  commutes_tac.
Qed.

Lemma clearCache_ignores_columnNames : commutes (set_columnNames names) clearCache.
Proof. unfold clearCache. commutes_tac. Qed.

Lemma deleteRows_ignores_columnNames : commutes (set_columnNames names) deleteRows.
Proof.
  unfold deleteRows. apply commutes_bind; [apply getRows_ignores_columnNames|].
  intros rows. apply commutes_bind; [|intros _; apply clearCache_ignores_columnNames].
  commutes_tac.
Qed.

Lemma updateRows_ignores_columnNames (updateFn : UpdateFn) :
  commutes (set_columnNames names) (updateRows updateFn).
Proof.
  unfold updateRows. apply commutes_bind; [apply getRows_ignores_columnNames|].
  intros rows. apply commutes_bind; [|intros _; apply clearCache_ignores_columnNames].
  commutes_tac.
Qed.

Lemma insertRows_ignores_columnNames (newRows : list DictObject) :
  commutes (set_columnNames names) (insertRows newRows).
Proof. unfold insertRows, getHeadings, getSheet. commutes_tac. Qed.
End Select.

(** ** The calls a method may make *)

Global Instance onlyCalls_preorder (P : Call → Prop) : PreOrder (onlyCalls P).
Proof.
  split.
  - intros s. exists []. by rewrite app_nil_r.
  - intros s1 s2 s3 (cs & Hc & Hf) (ds & Hd & Hg).
    exists (cs ++ ds). rewrite Hd, Hc, <- app_assoc. split; [done|].
    by apply Forall_app.
Qed.

Global Instance readOnly_preorder : PreOrder readOnly.
Proof.
  split.
  - intros s. split; [done|reflexivity].
  - intros s1 s2 s3 [H1 H1'] [H2 H2']. split; [congruence|by etransitivity].
Qed.

Lemma onlyCalls_this (P : Call → Prop) (f : SheetQueryBuilder → SheetQueryBuilder) (s : State) :
  onlyCalls P s (withThis f s).
Proof. exists []. by rewrite app_nil_r. Qed.

Lemma onlyCalls_call (P : Call → Prop) (c : Call) (s : State) (a : Spreadsheet) :
  P c → onlyCalls P s {| this := this s; app := a; calls := calls s ++ [c] |}.
Proof. intros H. exists [c]. split; [done|]. by constructor. Qed.

Lemma onlyCalls_newCalls (P : Call → Prop) (s s' : State) :
  onlyCalls P s s' → Forall P (newCalls s s').
Proof. intros (cs & Hc & Hf). by rewrite (newCalls_app s s' cs Hc). Qed.

Ltac calls_tac :=
  respects_tac;
  try first
    [ apply onlyCalls_this
    | apply onlyCalls_call; first [done | intros [=] | (split; [done|intros [=]]) | eauto ]
    | (split; [done|]); first [apply onlyCalls_this | apply onlyCalls_call; done] ].

Lemma getSheet_readOnly : respects readOnly getSheet.
Proof. unfold getSheet. calls_tac. Qed.
#[local] Hint Resolve getSheet_readOnly : respects.

Lemma getHeadings_readOnly : respects readOnly getHeadings.
Proof. unfold getHeadings. calls_tac. Qed.
#[local] Hint Resolve getHeadings_readOnly : respects.

Lemma getValues_readOnly : respects readOnly getValues.
Proof. unfold getValues. calls_tac. apply fillRows_respects; preorder. Qed.
#[local] Hint Resolve getValues_readOnly : respects.

Lemma getRows_readOnly : respects readOnly getRows.
Proof. unfold getRows. calls_tac. Qed.

Lemma readOnly_onlyCalls (P : Call → Prop) {A} (m : M A) :
  (∀ c, isWrite c = false ∧ isFlush c = false → P c) →
  respects readOnly m → respects (onlyCalls P) m.
Proof.
  intros HP Hm s res s' Hrun. destruct (Hm s res s' Hrun) as [_ (cs & Hc & Hf)].
  exists cs. split; [done|]. eapply Forall_impl; [exact Hf|]. exact HP.
Qed.

Lemma clearCache_onlyCalls (P : Call → Prop) : P CFlush → respects (onlyCalls P) clearCache.
Proof. intros H. unfold clearCache. calls_tac. Qed.

Lemma insertRows_appendsOnly (newRows : list DictObject) :
  respects (onlyCalls appendsOnly) (insertRows newRows).
Proof.
  unfold insertRows.
  apply respects_bind; preorder.
  { apply readOnly_onlyCalls; [|apply getSheet_readOnly].
    intros c [Hw Hf]. split; [done|]. congruence. }
  intros sheet. apply respects_bind; preorder.
  { apply readOnly_onlyCalls; [|apply getHeadings_readOnly].
    intros c [Hw Hf]. split; [done|]. congruence. }
  intros headings. respects_tac.
  apply onlyCalls_call. split; [done|]. eauto.
Qed.

Lemma deleteRows_deletesOnly : respects (onlyCalls deletesOnly) deleteRows.
Proof.
  unfold deleteRows.
  apply respects_bind; preorder.
  { apply readOnly_onlyCalls; [|apply getRows_readOnly].
    intros c [Hw Hf] Hw'. congruence. }
  intros rows. apply respects_bind; preorder;
    [|intros _; apply clearCache_onlyCalls; intros [=]].
  respects_tac. apply onlyCalls_call. intros _. eauto.
Qed.

Lemma updateRows_setsOnly (updateFn : UpdateFn) :
  respects (onlyCalls setsOnly) (updateRows updateFn).
Proof.
  unfold updateRows.
  apply respects_bind; preorder.
  { apply readOnly_onlyCalls; [|apply getRows_readOnly].
    intros c [Hw Hf] Hw'. congruence. }
  intros rows. apply respects_bind; preorder;
    [|intros _; apply clearCache_onlyCalls; intros [=]].
  respects_tac. apply onlyCalls_call. intros _. eauto.
Qed.

(** ** The writes of [updateRows] on freshly read rows *)

Lemma materialize_metas (hd : option (list value)) (numCols : Z) (block : list (list value)) :
  __meta <$> materialize hd numCols block
  = Some <$> imap (λ r _, {| row := Z.of_nat r + 2; cols := numCols |}) block.
Proof.
  apply list_eq. intros i. unfold materialize.
  rewrite !list_lookup_fmap, !list_lookup_imap. by destruct (block !! i).
Qed.

Lemma updateCalls_materialize (sh : Sheet) (updateFn : UpdateFn) (hd : option (list value))
    (numCols : Z) (block : list (list value)) :
  zip_with (updateCall sh updateFn) (materialize hd numCols block)
    (imap (λ r _, {| row := Z.of_nat r + 2; cols := numCols |}) block)
  = imap (λ r cells,
            let ro := recordOf (default [] hd) numCols r cells in
            CSetValues sh (Z.of_nat r + 2) 1 1 numCols
              [updatedValues (updateFn ro).1 (updateFn ro).2]) block.
Proof.
  apply list_eq. intros i. unfold materialize.
  rewrite lookup_zip_with, !list_lookup_imap. by destruct (block !! i).
Qed.

(** The writes of [updateRows] from an empty cache with no filter set:
    one per row of the block read, from that row's record. *)
Lemma updateRows_fresh_writes (s : State) (sh : Sheet) (updateFn : UpdateFn) :
  _sheetValues (this s) = None → resolved s = Some sh → whereFn (this s) = None →
  (is_Some (headingsIn s sh) ∨ dataBlock (app s) sh = [] ∨
   Z.to_nat (getLastColumn (app s) sh) = 0%nat) →
  (updateRows updateFn s).1 = Ok tt ∧
  List.filter isWrite (newCalls s (updateRows updateFn s).2)
  = imap (λ r cells,
            let ro := recordOf (default [] (headingsIn s sh)) (getLastColumn (app s) sh) r cells in
            CSetValues sh (Z.of_nat r + 2) 1 1 (getLastColumn (app s) sh)
              [updatedValues (updateFn ro).1 (updateFn ro).2]) (dataBlock (app s) sh).
Proof.
  intros Hc Hr Hw Hl.
  pose proof (getValues_load s sh Hc Hr Hl) as Hg. cbv zeta in Hg.
  set (rows := materialize (headingsIn s sh) (getLastColumn (app s) sh)
                 (dataBlock (app s) sh)) in *.
  assert (Hrows : getRows s = (Ok rows, loaded s sh rows)).
  { by rewrite getRows_run, Hg, loaded_whereFn, Hw. }
  rewrite (updateRows_run updateFn s _ _ sh _ Hrows (loaded_sheet s sh rows Hr)
             (materialize_metas _ _ _)).
  split; [done|]. cbn [snd].
  erewrite newCalls_app.
  2:{ cbn [calls withThis runCalls]. rewrite loaded_calls, <- !app_assoc. reflexivity. }
  rewrite app_assoc, List.filter_app, filter_isWrite_updateCalls.
  rewrite List.filter_app, filter_isWrite_resolveCalls, filter_isWrite_loadCalls.
  apply updateCalls_materialize.
Qed.

(** ** Headings without reserved names *)

Lemma plainHeadings_check (hs : list value) :
  forallb (λ h, negb (reservedKey (toPropertyKey h))) hs = true → plainHeadings hs.
Proof.
  induction hs as [|h hs IH]; simpl; [by constructor|].
  intros [Hh Hhs]%andb_true_iff. constructor; [by apply negb_true_iff|by apply IH].
Qed.

Lemma plainTable_check (s : State) :
  match resolved s with
  | Some sh =>
      match headingsIn s sh with
      | Some hs => forallb (λ h, negb (reservedKey (toPropertyKey h))) hs
      | None => true
      end
  | None => true
  end = true →
  plainTable s.
Proof.
  intros H sh hs Hr Hh. rewrite Hr, Hh in H. by apply plainHeadings_check.
Qed.

End BuilderFacts.

(** * The table store *)

Lemma Grid_loadable (s : State) (sh : string) :
  is_Some (headingsIn s sh) ∨ dataBlock (app s) sh = [] ∨
  Z.to_nat (getLastColumn (app s) sh) = 0%nat.
Proof.
  left. unfold headingsIn, headerRow. simpl.
  destruct (headingsUnloaded (_sheetHeadings (this s))) eqn:E.
  - unfold Grid.readBlock. simpl. eauto.
  - by destruct (_sheetHeadings (this s)) as [[|]|].
Qed.

(** On the table store [getValues] returns whenever the table
    resolves. *)
Lemma Grid_getValues_returns (s : State) (sh : string) :
  resolved s = Some sh → _sheetValues (this s) = None →
  ∃ rows s1, getValues s = (Ok rows, s1).
Proof.
  intros Hr Hc. do 2 eexists. apply (getValues_load s sh Hc Hr), Grid_loadable.
Qed.

(** The rows a read of [n] rows past the end of a list finds: the
    rows of the list, then empty ones. *)
Lemma fmap_seq_rows {A} (f : list value → A) (data : Grid.Table) (n : nat) :
  (λ k, f (default [] (data !! k))) <$> seq 0 (length data + n)
  = f <$> (data ++ replicate n []).
Proof.
  apply list_eq. intros i. rewrite !list_lookup_fmap.
  destruct (decide (i < length data + n)%nat) as [Hlt|Hge].
  - rewrite lookup_seq_lt by done. simpl.
    destruct (decide (i < length data)%nat) as [Hd|Hd].
    + rewrite lookup_app_l by done.
      destruct (lookup_lt_is_Some_2 data i Hd) as [d ->]. done.
    + rewrite lookup_app_r by lia. rewrite lookup_replicate_2 by lia.
      rewrite (lookup_ge_None_2 data i) by lia. done.
  - rewrite lookup_seq_ge by lia.
    rewrite (lookup_ge_None_2 (data ++ replicate n [])); [done|].
    rewrite length_app, length_replicate. lia.
Qed.

(** Deleting with reindexing on a table whose last selected record may
    be that of the blank row read past the end: that row is not in the
    table, and its delete removes nothing. *)
Lemma applyDeletes_survivors (sel : nat → list value → bool) (numCols : Z)
    (data pre : Grid.Table) (k : nat) (i : Z) :
  0 ≤ i → Z.of_nat (length pre) = 1 + Z.of_nat k - i →
  applyDeletes i (selectedMetas sel numCols k (data ++ [[]])) (pre ++ data)
  = pre ++ survivors sel k data.
Proof.
  revert pre k i. induction data as [|x data IH]; intros pre k i Hi Hlen.
  { simpl. destruct (sel k []); [|done]. simpl. unfold Grid.deleteBlock.
    replace ((1 <=? Z.of_nat k + 2 - i) && (1 <=? 1)) with true
      by (symmetry; apply andb_true_iff; split; apply Z.leb_le; lia).
    replace (Z.to_nat (Z.of_nat k + 2 - i - 1)) with (length (pre ++ [])) by
      (rewrite length_app; simpl; lia).
    rewrite take_ge, drop_ge by lia. by rewrite app_nil_r. }
  simpl. destruct (sel k x).
  - simpl. unfold Grid.deleteBlock.
    replace ((1 <=? Z.of_nat k + 2 - i) && (1 <=? 1)) with true
      by (symmetry; apply andb_true_iff; split; apply Z.leb_le; lia).
    replace (Z.to_nat (Z.of_nat k + 2 - i - 1)) with (length pre) by lia.
    rewrite take_app_length.
    replace (length pre + Z.to_nat 1)%nat with (length pre + 1)%nat by lia.
    rewrite (drop_app_add pre (x :: data) 1). simpl. rewrite drop_0.
    apply IH; lia.
  - rewrite (cons_middle x pre data), app_assoc. rewrite IH.
    + by rewrite <- app_assoc.
    + lia.
    + rewrite length_app. simpl. lia.
Qed.

Lemma Grid_table_alter (f : Grid.Table → Grid.Table) (a : gmap string Grid.Table) (sh : string) :
  f [] = [] → Grid.table (alter f sh a) sh = f (Grid.table a sh).
Proof.
  intros Hf. unfold Grid.table. rewrite lookup_alter_eq.
  destruct (a !! sh); simpl; [done|by rewrite Hf].
Qed.

Lemma Grid_deleteCalls_table (sh : string) (ms : list Meta) (i : Z) (a : gmap string Grid.Table) :
  Grid.table (foldl (perform (B := Grid.store)) a (deleteCalls sh i ms)) sh
  = applyDeletes i ms (Grid.table a sh).
Proof.
  revert i a. induction ms as [|m ms IH]; intros i a; [done|].
  simpl. rewrite IH. f_equal. apply Grid_table_alter.
  unfold Grid.deleteBlock. destruct (_ && _); [|done]. by rewrite take_nil, drop_nil.
Qed.

Lemma selection_selectedMetas (fn : option WhereFn) (hs : list value) (numCols : Z)
    (data : Grid.Table) (k : nat) :
  __meta <$> selection fn (imap (λ r cells, recordOf hs numCols (k + r) cells)
                                (padded numCols <$> data))
  = Some <$> selectedMetas (λ r d, selects fn (recordOf hs numCols r (padded numCols d)))
               numCols k data.
Proof.
  revert k. induction data as [|d data IH]; intros k.
  - by destruct fn.
  - rewrite fmap_cons. cbn [imap selectedMetas].
    assert (Hrest : imap ((λ r cells, recordOf hs numCols (k + r) cells) ∘ S)
                      (padded numCols <$> data)
                    = imap (λ r cells, recordOf hs numCols (S k + r) cells)
                        (padded numCols <$> data)).
    { apply imap_ext. intros r x _. simpl. by rewrite Nat.add_succ_r. }
    rewrite Hrest, Nat.add_0_r. specialize (IH (S k)).
    unfold selection in *. destruct fn as [f|]; cbn [List.filter selects].
    + destruct (f _); [rewrite !fmap_cons|]; by rewrite IH.
    + by rewrite !fmap_cons, IH.
Qed.

Lemma Grid_dataBlock (a : gmap string Grid.Table) (sh : string) (header : list value)
    (data : Grid.Table) :
  a !! sh = Some (header :: data) →
  dataBlock (B := Grid.store) a sh
  = padded (Grid.lastColumn (header :: data)) <$> (data ++ [[]]).
Proof.
  intros Ha. unfold dataBlock. simpl. unfold Grid.table. rewrite Ha. simpl.
  unfold Grid.readBlock, Grid.lastRow. rewrite Nat2Z.id.
  replace (length (header :: data)) with (length data + 1)%nat by (simpl; lia).
  exact (fmap_seq_rows (padded (Grid.lastColumn (header :: data))) data 1).
Qed.

(** On the table store, [deleteRows] removes exactly the data rows
    whose records the filter selects, and keeps the others in order
    under the header.  (The read also returns the blank row past the
    end; deleting it changes nothing.) *)
Theorem Grid_deleteRows_removes_selection (a : gmap string Grid.Table) (sh : string)
    (header : list value) (data : Grid.Table) (s : State) :
  a !! sh = Some (header :: data) → app s = a → resolved s = Some sh →
  _sheetValues (this s) = None →
  ∃ s2, deleteRows s = (Ok tt, s2) ∧
        Grid.table (app s2) sh =
          header :: survivors
                      (λ r d, selects (whereFn (this s))
                                (recordOf (default [] (headingsIn s sh))
                                   (Grid.lastColumn (header :: data)) r
                                   (padded (Grid.lastColumn (header :: data)) d)))
                      0 data.
Proof.
  intros Ha Hs Hr Hc. subst a.
  pose proof (getValues_load s sh Hc Hr (Grid_loadable s sh)) as Hg. simpl in Hg.
  pose proof (Grid_dataBlock (app s) sh header data Ha) as Hb.
  assert (HC : getLastColumn (app s) sh = Grid.lastColumn (header :: data)).
  { simpl. unfold Grid.table. by rewrite Ha. }
  set (numCols := Grid.lastColumn (header :: data)) in *.
  set (hs := default [] (headingsIn s sh)).
  set (rows := materialize (headingsIn s sh) numCols (padded numCols <$> (data ++ [[]]))).
  assert (Hg' : getValues s = (Ok rows, loaded s sh rows)).
  { subst rows. rewrite <- Hb, <- HC. exact Hg. }
  set (sel := λ r d, selects (whereFn (this s)) (recordOf hs numCols r (padded numCols d))).
  assert (Hrows : getRows s = (Ok (selection (whereFn (this s)) rows), loaded s sh rows)).
  { by rewrite getRows_run, Hg', loaded_whereFn. }
  assert (Hms : __meta <$> selection (whereFn (this s)) rows
                = Some <$> selectedMetas sel numCols 0 (data ++ [[]])).
  { exact (selection_selectedMetas (whereFn (this s)) hs numCols (data ++ [[]]) 0). }
  eexists. split.
  - exact (deleteRows_run (B := Grid.store) s _ _ sh _ Hrows
             (loaded_sheet s sh rows Hr) Hms).
  - cbn [app withThis runCalls cleared]. rewrite foldl_app. cbn [foldl perform flush Grid.store].
    rewrite Grid_deleteCalls_table.
    rewrite (loaded_app s sh rows). unfold Grid.table at 1. rewrite Ha. simpl default.
    exact (applyDeletes_survivors sel numCols data [header] 0 0 ltac:(lia) ltac:(simpl; lia)).
Qed.

Example demo_deleteRows_table :
  Grid.table (app (deleteRows demoDelete).2) "S"
  = [[VStr "A"; VStr "B"]; [VNum 3; VNum 4]; [VNum 7; VNum 8]].
Proof. vm_compute. reflexivity. Qed.

(** * The builder's contract *)

Lemma respects_snd {B : BackingStore} {A} (R : State → State → Prop) (m : M A) (s : State) :
  respects R m → R s (m s).2.
Proof. intros H. apply (H s (m s).1). by destruct (m s). Qed.



(** C2, at a failing input.  On an empty cache [getValues] reads one
    block, from row 2, column 1, as wide as the table's last column and
    of as many rows as the table's last row [L]: the block asked for
    covers the rows 2 to [L + 1] and ends one row past the last row.
    For headings without reserved names, the physical row [r] of the
    block the service returns becomes the record with metadata
    [{ row: r + 2, cols: numCols }] whose data properties result from
    assigning, for [c] from 0 below [numCols], the cell [r][c] under
    the heading [c]; the sequence is cached.  For the table with
    headings [A, B] and the single data row [1, 2] the last row is 2,
    the read asks for the rows 2 and 3, and [getRows] yields two
    records, [{A: 1, B: 2}] at row 2 and a blank one at row 3, where
    the claim has one. *)
Theorem getValues_reads_past_last_row :
  (∀ (B : BackingStore) (s s1 : State) (rows : list RowObject),
      _sheetValues (this s) = None → plainTable s → getValues s = (Ok rows, s1) →
      ∃ sh : Sheet,
        resolved s = Some sh ∧
        let numCols := getLastColumn (app s) sh in
        let headings := default [] (headingsIn s sh) in
        List.filter isBlockRead (newCalls s s1)
          = [CGetSheetValues sh 2 1 (getLastRow (app s) sh) numCols] ∧
        rows = imap (λ r cells,
                       {| __meta := Some {| row := Z.of_nat r + 2; cols := numCols |};
                          fields := fromEntries (zipColumns headings cells numCols) |})
                    (getSheetValues (app s) sh 2 1 (getLastRow (app s) sh) numCols) ∧
        _sheetValues (this s1) = Some rows)
  ∧ (Grid.table small "T" = [[VStr "A"; VStr "B"]; [VNum 1; VNum 2]] ∧
     @getLastRow Grid.store small "T" = 2 ∧
     List.filter isBlockRead (calls (getRows (Grid.query small "T")).2)
       = [CGetSheetValues "T" 2 1 2 2] ∧
     @getSheetValues Grid.store small "T" 2 1 2 2
       = [[VNum 1; VNum 2]; [VStr EmptyString; VStr EmptyString]] ∧
     (getRows (Grid.query small "T")).1
       = Ok [ {| __meta := Some {| row := 2; cols := 2 |};
                 fields := [("A", VNum 1); ("B", VNum 2)] |};
              {| __meta := Some {| row := 3; cols := 2 |};
                 fields := [("A", VStr EmptyString); ("B", VStr EmptyString)] |} ]).
Proof.
  split.
  - intros B s s1 rows Hc _ Hg.
    destruct (getValues_Ok_inv s s1 rows Hc Hg) as (sh & Hr & Hrows & ->).
    exists sh. split; [done|]. simpl. split; [|split; [exact Hrows|done]].
    erewrite newCalls_app by apply loaded_calls.
    apply filter_isBlockRead_loadCalls.
  - repeat split; vm_compute; reflexivity.
Qed.

Lemma getValues_reads_past_last_row_witness :
  ∃ sh : Sheet,
    resolved (Grid.query small "T") = Some sh ∧
    let numCols := getLastColumn (app (Grid.query small "T")) sh in
    let headings := default [] (headingsIn (Grid.query small "T") sh) in
    List.filter isBlockRead (newCalls (Grid.query small "T") (getValues (Grid.query small "T")).2)
      = [CGetSheetValues sh 2 1 (getLastRow (app (Grid.query small "T")) sh) numCols] ∧
    [ smallRow;
      {| __meta := Some {| row := 3; cols := 2 |};
         fields := [("A", VStr EmptyString); ("B", VStr EmptyString)] |} ]
      = imap (λ r cells,
                {| __meta := Some {| row := Z.of_nat r + 2; cols := numCols |};
                   fields := fromEntries (zipColumns headings cells numCols) |})
             (getSheetValues (app (Grid.query small "T")) sh 2 1
                (getLastRow (app (Grid.query small "T")) sh) numCols) ∧
    _sheetValues (this (getValues (Grid.query small "T")).2)
      = Some [ smallRow;
               {| __meta := Some {| row := 3; cols := 2 |};
                  fields := [("A", VStr EmptyString); ("B", VStr EmptyString)] |} ].
Proof.
  apply (proj1 getValues_reads_past_last_row Grid.store (Grid.query small "T")).
  - reflexivity.
  - apply plainTable_check. vm_compute. reflexivity.
  - apply pair_fst_eq. vm_compute. reflexivity.
Defined.

(** C3, at a failing input.  On a table that holds only its header
    row the last row is 1, so [getValues] asks for one row from row 2
    on, and the service answers with the blank row below the header.
    From an empty cache, with no filter set and headings without
    reserved names: [getValues] returns one record, of blank cells, at
    position 2, not the empty sequence; [deleteRows] makes one
    positional delete, at row 2; [updateRows] makes one positional
    write, at row 2.  Both still flush last and leave the row cache and
    the heading list cleared. *)
Theorem header_only_table :
  (∀ (a : gmap string Grid.Table) (sh : string) (header : list value)
     (s : State) (updateFn : UpdateFn),
      a !! sh = Some [header] → app s = a → resolved s = Some sh →
      _sheetValues (this s) = None → whereFn (this s) = None → plainTable s →
      let numCols := Z.of_nat (length header) in
      let blankRecord :=
        recordOf (default [] (headingsIn s sh)) numCols 0
          (replicate (length header) Grid.blank) in
      (getValues s).1 = Ok [blankRecord] ∧
      (∃ s2, deleteRows s = (Ok tt, s2) ∧
             List.filter isWrite (newCalls s s2) = [CDeleteCells sh 2 1 1 numCols] ∧
             last (calls s2) = Some CFlush ∧
             _sheetValues (this s2) = None ∧ _sheetHeadings (this s2) = Some []) ∧
      (∃ s2, updateRows updateFn s = (Ok tt, s2) ∧
             List.filter isWrite (newCalls s s2)
               = [CSetValues sh 2 1 1 numCols
                    [updatedValues (updateFn blankRecord).1 (updateFn blankRecord).2]] ∧
             last (calls s2) = Some CFlush ∧
             _sheetValues (this s2) = None ∧ _sheetHeadings (this s2) = Some []))
  ∧ (Grid.table headerOnly "H" = [[VStr "A"; VStr "B"]] ∧
     (getValues (Grid.query headerOnly "H")).1
       = Ok [ {| __meta := Some {| row := 2; cols := 2 |};
                 fields := [("A", VStr EmptyString); ("B", VStr EmptyString)] |} ] ∧
     List.filter isWrite (calls (deleteRows (Grid.query headerOnly "H")).2)
       = [CDeleteCells "H" 2 1 1 2] ∧
     List.filter isWrite (calls (updateRows keepAsIs (Grid.query headerOnly "H")).2)
       = [CSetValues "H" 2 1 1 2 [[VStr EmptyString; VStr EmptyString]]]).
Proof.
  split; [|repeat split; vm_compute; reflexivity].
  intros a sh header s updateFn Ha Hs Hr Hc Hw _ numCols blankRecord. subst a.
  assert (HL : Grid.lastColumn [header] = numCols).
  { unfold Grid.lastColumn. simpl. by rewrite Nat.max_0_r. }
  assert (HC : getLastColumn (app s) sh = numCols).
  { simpl. unfold Grid.table. by rewrite Ha. }
  assert (Hb : dataBlock (app s) sh = [replicate (length header) Grid.blank]).
  { rewrite (Grid_dataBlock (app s) sh header [] Ha), HL. simpl. unfold padded. simpl.
    subst numCols. by rewrite Nat2Z.id, take_replicate, Nat.min_id. }
  pose proof (getValues_load s sh Hc Hr (Grid_loadable s sh)) as Hg. cbv zeta in Hg.
  rewrite HC, Hb in Hg.
  change (materialize (headingsIn s sh) numCols [replicate (length header) Grid.blank])
    with [blankRecord] in Hg.
  assert (Hrows : getRows s = (Ok [blankRecord], loaded s sh [blankRecord])).
  { by rewrite getRows_run, Hg, loaded_whereFn, Hw. }
  assert (Hsh : _sheet (this (loaded s sh [blankRecord])) = Some sh)
    by by apply (loaded_sheet (B := Grid.store)).
  assert (Hms : __meta <$> [blankRecord] = Some <$> [ {| row := 2; cols := numCols |} ])
    by done.
  assert (Hnone : List.filter isWrite (resolveCalls s ++ loadCalls s sh) = []).
  { by rewrite List.filter_app, filter_isWrite_resolveCalls, filter_isWrite_loadCalls. }
  split; [by rewrite Hg|]. split.
  - eexists. split; [exact (deleteRows_run (B := Grid.store) s _ _ sh _ Hrows Hsh Hms)|].
    split; [|split; [|done]].
    + erewrite newCalls_app.
      2:{ cbn [calls withThis runCalls]. rewrite loaded_calls, <- !app_assoc. reflexivity. }
      rewrite app_assoc, List.filter_app, Hnone. done.
    + cbn [calls withThis runCalls]. by rewrite app_assoc, last_snoc.
  - eexists. split;
      [exact (updateRows_run (B := Grid.store) updateFn s _ _ sh _ Hrows Hsh Hms)|].
    split; [|split; [|done]].
    + erewrite newCalls_app.
      2:{ cbn [calls withThis runCalls]. rewrite loaded_calls, <- !app_assoc. reflexivity. }
      rewrite app_assoc, List.filter_app, Hnone. done.
    + cbn [calls withThis runCalls]. by rewrite app_assoc, last_snoc.
Qed.

Lemma header_only_table_witness :
  let s := Grid.query headerOnly "H" in
  let numCols := Z.of_nat (length [VStr "A"; VStr "B"]) in
  let blankRecord :=
    recordOf (default [] (headingsIn s "H")) numCols 0
      (replicate (length [VStr "A"; VStr "B"]) Grid.blank) in
  (getValues s).1 = Ok [blankRecord] ∧
  (∃ s2, deleteRows s = (Ok tt, s2) ∧
         List.filter isWrite (newCalls s s2) = [CDeleteCells "H" 2 1 1 numCols] ∧
         last (calls s2) = Some CFlush ∧
         _sheetValues (this s2) = None ∧ _sheetHeadings (this s2) = Some []) ∧
  (∃ s2, updateRows keepAsIs s = (Ok tt, s2) ∧
         List.filter isWrite (newCalls s s2)
           = [CSetValues "H" 2 1 1 numCols
                [updatedValues (keepAsIs blankRecord).1 (keepAsIs blankRecord).2]] ∧
         last (calls s2) = Some CFlush ∧
         _sheetValues (this s2) = None ∧ _sheetHeadings (this s2) = Some []).
Proof.
  apply (proj1 header_only_table headerOnly "H" [VStr "A"; VStr "B"]
           (Grid.query headerOnly "H") keepAsIs).
  - vm_compute. reflexivity.
  - reflexivity.
  - vm_compute. reflexivity.
  - reflexivity.
  - reflexivity.
  - apply plainTable_check. vm_compute. reflexivity.
Defined.

(** C4, at a failing input.  On the sample table, after a [getValues]
    that loaded the four data rows (and the blank row the read returns
    below them), [insertRows] of one record returns, the table has its
    fifth data row, yet no flush was made and the row cache is the one
    from before: the next [getValues] returns the old rows without any
    call, where a read after [clearCache] returns others. *)
Theorem insertRows_leaves_cache_stale :
  let s1 := (getValues (Grid.query demo "S")).2 in
  let s2 := (insertRows [ {[ "A" := VNum 9; "B" := VNum 10 ]} ] s1).2 in
  (insertRows [ {[ "A" := VNum 9; "B" := VNum 10 ]} ] s1).1 = Ok tt ∧
  Grid.table (app s2) "S" = Grid.table demo "S" ++ [[VNum 9; VNum 10]] ∧
  List.filter isFlush (calls s2) = [] ∧
  _sheetValues (this s2) = _sheetValues (this s1) ∧
  (getValues s2).1 = (getValues (Grid.query demo "S")).1 ∧
  (getValues s2).1 = Ok (materialize (Some [VStr "A"; VStr "B"]) 2 demoBlock) ∧
  (getValues (clearCache s2).2).1
    = Ok (materialize (Some [VStr "A"; VStr "B"]) 2
            (demoData ++ [[VNum 9; VNum 10]; [VStr EmptyString; VStr EmptyString]])) ∧
  newCalls s2 (getValues s2).2 = [].
Proof. repeat split; vm_compute; reflexivity. Qed.

(** C5, as the code has it.  The table handle is created by the
    first [getSheet] of a builder, by a lookup under the table name, and
    the heading list by the first [getHeadings].  Once the handle is
    set, [getSheet] returns it without any call, and no method resets
    it: it survives [getHeadings], [getValues], [getRows], [insertRows],
    [updateRows], [deleteRows] and [clearCache].  When [updateRows] or
    [deleteRows] returns, the row cache and the heading list are
    cleared, the handle is still set, and a following [getSheet] returns
    it with no lookup. *)
Theorem sheet_reference_kept {B : BackingStore} :
  (∀ s : State, _sheet (this s) = None →
      getSheet s =
        (Ok (getSheetByName (app s) (sheetName (this s))),
         withThis (set_sheet (getSheetByName (app s) (sheetName (this s))))
           (runCalls [CGetSheetByName (sheetName (this s))] s)))
  ∧ (∀ (s : State) (sh : Sheet),
        resolved s = Some sh → headingsUnloaded (_sheetHeadings (this s)) = true →
        _sheetHeadings (this (getHeadings s).2) = headerRow (app s) sh)
  ∧ (∀ (s : State) (sh : Sheet), _sheet (this s) = Some sh →
        getSheet s = (Ok (Some sh), s))
  ∧ (∀ (s : State) (sh : Sheet) (newRows : list DictObject) (updateFn : UpdateFn),
        _sheet (this s) = Some sh →
        _sheet (this (getHeadings s).2) = Some sh ∧
        _sheet (this (getValues s).2) = Some sh ∧
        _sheet (this (getRows s).2) = Some sh ∧
        _sheet (this (insertRows newRows s).2) = Some sh ∧
        _sheet (this (updateRows updateFn s).2) = Some sh ∧
        _sheet (this (deleteRows s).2) = Some sh ∧
        _sheet (this (clearCache s).2) = Some sh)
  ∧ (∀ (s s' : State) (updateFn : UpdateFn),
        cacheInv s →
        updateRows updateFn s = (Ok tt, s') ∨ deleteRows s = (Ok tt, s') →
        _sheetValues (this s') = None ∧ _sheetHeadings (this s') = Some [] ∧
        ∃ sh, _sheet (this s') = Some sh ∧ getSheet s' = (Ok (Some sh), s')).
Proof.
  split; [exact getSheet_first|]. split; [|split; [exact getSheet_cached|split]].
  - intros s sh Hr Hu. by rewrite (getHeadings_load s sh Hu Hr).
  - intros s sh newRows updateFn Hs. repeat split.
    + by apply (respects_snd (keepsSheet sh) _ s (getHeadings_keepsSheet sh)).
    + by apply (respects_snd (keepsSheet sh) _ s (getValues_keepsSheet sh)).
    + by apply (respects_snd (keepsSheet sh) _ s (getRows_keepsSheet sh)).
    + by apply (respects_snd (keepsSheet sh) _ s (insertRows_keepsSheet sh newRows)).
    + by apply (respects_snd (keepsSheet sh) _ s (updateRows_keepsSheet sh updateFn)).
    + by apply (respects_snd (keepsSheet sh) _ s (deleteRows_keepsSheet sh)).
    + by apply (respects_snd (keepsSheet sh) _ s (clearCache_keepsSheet sh)).
  - intros s s' updateFn Hi [Hu|Hd].
    + destruct (updateRows_Ok_inv updateFn s s' Hi Hu) as (rows & s1 & sh & ms & _ & Hsh & _ & ->).
      split; [done|]. split; [done|]. exists sh. split; [done|].
      by apply getSheet_cached.
    + destruct (deleteRows_Ok_inv s s' Hi Hd) as (rows & s1 & sh & ms & _ & Hsh & _ & ->).
      split; [done|]. split; [done|]. exists sh. split; [done|].
      by apply getSheet_cached.
Qed.

Lemma sheet_reference_kept_witness :
  _sheetValues (this (updateRows keepAsIs (Grid.query demo "S")).2) = None ∧
  _sheetHeadings (this (updateRows keepAsIs (Grid.query demo "S")).2) = Some [] ∧
  ∃ sh, _sheet (this (updateRows keepAsIs (Grid.query demo "S")).2) = Some sh ∧
        getSheet (updateRows keepAsIs (Grid.query demo "S")).2
          = (Ok (Some sh), (updateRows keepAsIs (Grid.query demo "S")).2).
Proof.
  apply (proj2 (proj2 (proj2 (proj2 (sheet_reference_kept (B := Grid.store)))))
           (Grid.query demo "S") _ keepAsIs).
  - intros rows H. vm_compute in H. discriminate H.
  - left. apply pair_fst_eq. vm_compute. reflexivity.
Defined.

(** C5 as claimed fails: after [updateRows] has returned, the handle
    is still set, and [getSheet] hands it out with no lookup even once
    the builder names another table. *)
Lemma sheet_reference_cleared_counterexample :
  (updateRows keepAsIs (Grid.query demo "S")).1 = Ok tt ∧
  _sheet (this (updateRows keepAsIs (Grid.query demo "S")).2) ≠ None ∧
  (getSheet (from "Other" (updateRows keepAsIs (Grid.query demo "S")).2).2).1 = Ok (Some "S") ∧
  newCalls (from "Other" (updateRows keepAsIs (Grid.query demo "S")).2).2
           (getSheet (from "Other" (updateRows keepAsIs (Grid.query demo "S")).2).2).2 = [].
Proof. repeat split; vm_compute; congruence. Qed.

(** C6, at a failing input.  [insertRows] appends one row per input
    record, in input order, and writes nothing else.  The row lists, in
    heading order, for each heading [h] what [row[h]] reads when that is
    truthy, and the empty string otherwise.  Whenever the record has a
    property of its own under [h], or the name of [h] is not a property
    of [Object.prototype], this is the placeholder policy: the record's
    value under [h] when that value is truthy, and the empty string when
    the key is missing or the value is falsy; the falsy values are
    [undefined], [null], [false], [0], [NaN] and the empty string.
    Under a heading such as [constructor], a record without that key
    hands out the built-in it inherits, which is truthy, and that
    built-in is appended where the claim has the empty string. *)
Theorem insertRows_placeholder_policy :
  (∀ (B : BackingStore) (s : State) (sh : Sheet) (hs : list value)
     (newRows : list DictObject),
      resolved s = Some sh → headingsIn s sh = Some hs →
      ∃ s', insertRows newRows s = (Ok tt, s') ∧
            List.filter isWrite (newCalls s s')
              = (λ ro, CAppendRow sh (appendedCell ro <$> hs)) <$> newRows)
  ∧ (∀ (ro : DictObject) (h : value),
        toPropertyKey h ∉ inheritedNames → appendedCell ro h = insertedCell ro h)
  ∧ (∀ (ro : DictObject) (h : value),
        is_Some (ro !! toPropertyKey h) → appendedCell ro h = insertedCell ro h)
  ∧ (∀ (ro : DictObject) (h v : value),
        ro !! toPropertyKey h = Some v → truthy v = true → insertedCell ro h = v)
  ∧ (∀ (ro : DictObject) (h : value),
        ro !! toPropertyKey h = None → insertedCell ro h = VStr EmptyString)
  ∧ (∀ (ro : DictObject) (h v : value),
        ro !! toPropertyKey h = Some v → truthy v = false → insertedCell ro h = VStr EmptyString)
  ∧ (∀ v : value,
        truthy v = false ↔
        v = VUndefined ∨ v = VNull ∨ v = VBool false ∨ v = VNum 0 ∨ v = VNaN ∨ v = VStr EmptyString)
  ∧ List.filter isWrite
      (calls (insertRows [ {[ "A" := VNum 0; "C" := VNum 3 ]}; {[ "B" := VBool true ]};
                           {[ "A" := VStr "x"; "B" := VNum 2 ]} ]
                (Grid.query demo "S")).2)
    = [ CAppendRow "S" [VStr EmptyString; VStr EmptyString];
        CAppendRow "S" [VStr EmptyString; VBool true];
        CAppendRow "S" [VStr "x"; VNum 2] ]
  ∧ (Grid.table projects "P" = [[VStr "constructor"; VStr "A"]] ∧
     List.filter isWrite
       (calls (insertRows [ {[ "A" := VNum 1 ]} ] (Grid.query projects "P")).2)
     = [CAppendRow "P" [VInherited "constructor"; VNum 1]] ∧
     insertedCell {[ "A" := VNum 1 ]} (VStr "constructor") = VStr EmptyString).
Proof.
  split; [|split; [|split; [|split; [|split; [|split; [|split; [|split]]]]]]].
  - intros B s sh hs newRows Hr Hh. eexists. split; [by apply insertRows_run|].
    erewrite newCalls_app.
    2:{ simpl. rewrite afterGetSheet_resolveCalls. rewrite <- !app_assoc. reflexivity. }
    rewrite !List.filter_app, filter_isWrite_resolveCalls.
    replace (List.filter isWrite (headingCalls s sh)) with (@nil Call)
      by (unfold headingCalls; by destruct (headingsUnloaded _)).
    rewrite app_nil_l, app_nil_l.
    induction newRows as [|ro newRows IH]; [done|].
    rewrite fmap_cons. cbn [List.filter isWrite]. by rewrite IH.
  - intros ro h Hh. unfold appendedCell, insertedCell, readProp.
    destruct (ro !! toPropertyKey h); [done|]. by rewrite bool_decide_eq_false_2.
  - intros ro h [v Hv]. unfold appendedCell, insertedCell, readProp. by rewrite Hv.
  - intros ro h v Hl Ht. unfold insertedCell. by rewrite Hl, Ht.
  - intros ro h Hl. unfold insertedCell. by rewrite Hl.
  - intros ro h v Hl Ht. unfold insertedCell. by rewrite Hl, Ht.
  - exact truthy_false.
  - vm_compute. reflexivity.
  - repeat split; vm_compute; reflexivity.
Qed.

Lemma insertRows_placeholder_policy_witness :
  ∃ s', insertRows [ {[ "A" := VNum 0; "C" := VNum 3 ]}; {[ "B" := VBool true ]} ]
          (Grid.query demo "S") = (Ok tt, s') ∧
        List.filter isWrite (newCalls (Grid.query demo "S") s')
          = (λ ro, CAppendRow "S" (appendedCell ro <$> [VStr "A"; VStr "B"]))
              <$> [ {[ "A" := VNum 0; "C" := VNum 3 ]}; {[ "B" := VBool true ]} ].
Proof.
  apply (proj1 insertRows_placeholder_policy Grid.store (Grid.query demo "S") "S").
  - vm_compute. reflexivity.
  - vm_compute. reflexivity.
Defined.




(** C8.  Two calls of [getValues] with nothing in between, starting
    from an empty cache: the first reads the data block exactly once,
    the second returns the same sequence and leaves the builder, the
    service and the trace as they are, so it makes no call at all. *)
Theorem getValues_reads_once {B : BackingStore} (s s1 : State) (rows : list RowObject) :
  _sheetValues (this s) = None → getValues s = (Ok rows, s1) →
  length (List.filter isBlockRead (newCalls s s1)) = 1%nat ∧
  getValues s1 = (Ok rows, s1).
Proof.
  intros Hc Hg.
  destruct (getValues_Ok_inv s s1 rows Hc Hg) as (sh & Hr & Hrows & ->).
  split.
  - erewrite newCalls_app by apply loaded_calls.
    by rewrite filter_isBlockRead_loadCalls.
  - by apply getValues_cached.
Qed.

Lemma getValues_reads_once_witness :
  length (List.filter isBlockRead
            (newCalls (Grid.query demo "S") (getValues (Grid.query demo "S")).2)) = 1%nat ∧
  getValues (getValues (Grid.query demo "S")).2
    = (Ok (materialize (Some [VStr "A"; VStr "B"]) 2 demoBlock),
       (getValues (Grid.query demo "S")).2).
Proof.
  apply (getValues_reads_once (Grid.query demo "S")).
  - reflexivity.
  - apply pair_fst_eq. vm_compute. reflexivity.
Defined.

(** C9.  The one block read of [getValues] starts at row 2, column 1,
    and asks for as many rows as the table's last row [L] and as many
    columns as its last column [C]; the only other read of cells is
    the header read, made when no heading list is loaded.  On a table
    with a header and [d] data rows, [L] is [d + 1]: one more than the
    number of data rows below the header. *)
Theorem getValues_requests_lastRow_rows :
  (∀ (B : BackingStore) (s s1 : State) (rows : list RowObject),
      _sheetValues (this s) = None → getValues s = (Ok rows, s1) →
      ∃ sh : Sheet,
        resolved s = Some sh ∧
        List.filter isRead (newCalls s s1) =
          CGetSheetValues sh 2 1 (getLastRow (app s) sh) (getLastColumn (app s) sh) ::
          (if headingsUnloaded (_sheetHeadings (this s))
           then [CGetSheetValues sh 1 1 1 (getLastColumn (app s) sh)] else []))
  ∧ (∀ (a : gmap string Grid.Table) (sh : string) (header : list value)
       (data : list (list value)),
      a !! sh = Some (header :: data) →
      blockRead a sh = CGetSheetValues sh 2 1 (Z.of_nat (length data) + 1)
                         (Grid.lastColumn (header :: data))).
Proof.
  split.
  - intros B s s1 rows Hc Hg.
    destruct (getValues_Ok_inv s s1 rows Hc Hg) as (sh & Hr & Hrows & ->).
    exists sh. split; [done|].
    erewrite newCalls_app by apply loaded_calls.
    apply filter_isRead_loadCalls.
  - intros a sh header data Ha. unfold blockRead. simpl.
    unfold Grid.table. rewrite Ha. simpl. unfold Grid.lastRow. simpl length.
    do 2 f_equal. lia.
Qed.

Lemma getValues_requests_lastRow_rows_witness :
  ∃ sh : Sheet,
    resolved (Grid.query demo "S") = Some sh ∧
    List.filter isRead (newCalls (Grid.query demo "S") (getValues (Grid.query demo "S")).2) =
      CGetSheetValues sh 2 1 (getLastRow (app (Grid.query demo "S")) sh)
        (getLastColumn (app (Grid.query demo "S")) sh) ::
      (if headingsUnloaded (_sheetHeadings (this (Grid.query demo "S")))
       then [CGetSheetValues sh 1 1 1 (getLastColumn (app (Grid.query demo "S")) sh)] else []).
Proof.
  apply (proj1 getValues_requests_lastRow_rows Grid.store (Grid.query demo "S")
           (getValues (Grid.query demo "S")).2
           (materialize (Some [VStr "A"; VStr "B"]) 2 demoBlock)).
  - reflexivity.
  - apply pair_fst_eq. vm_compute. reflexivity.
Defined.

(** C10.  [getHeadings] takes an empty heading list for one that is
    not loaded: it reads the header whenever the cached list is absent
    or has length zero, and only then.  [clearCache] leaves such a list,
    so the next call reads again.  On a table whose header read yields
    no column, each of [n] calls in a row makes its own header read. *)
Theorem getHeadings_empty_not_loaded :
  (∀ h : option (list value),
      headingsUnloaded h = true ↔ h = None ∨ ∃ l, h = Some l ∧ length l = 0%nat)
  ∧ (∀ (B : BackingStore) (s : State) (sh : Sheet),
        resolved s = Some sh → headingsUnloaded (_sheetHeadings (this s)) = true →
        ∃ s1, getHeadings s = (Ok (headerRow (app s) sh), s1) ∧
              List.filter isRead (newCalls s s1)
                = [CGetSheetValues sh 1 1 1 (getLastColumn (app s) sh)])
  ∧ (∀ (B : BackingStore) (s : State),
        headingsUnloaded (_sheetHeadings (this s)) = false →
        getHeadings s = (Ok (_sheetHeadings (this s)), s))
  ∧ (∀ (B : BackingStore) (s : State),
        headingsUnloaded (_sheetHeadings (this (clearCache s).2)) = true)
  ∧ (∀ (B : BackingStore) (s : State) (sh : Sheet) (n : nat),
        resolved s = Some sh → headingsUnloaded (_sheetHeadings (this s)) = true →
        headingsUnloaded (headerRow (app s) sh) = true →
        ∃ s', times n getHeadings s = (Ok tt, s') ∧
              length (List.filter isHeaderRead (newCalls s s')) = n).
Proof.
  split; [exact headingsUnloaded_spec|]. split; [|split; [|split]].
  - intros B s sh Hr Hu.
    destruct (getHeadings_reads s sh Hr Hu) as (s1 & Hg & Hc & _).
    exists s1. split; [done|]. rewrite (newCalls_app _ _ _ Hc).
    unfold resolveCalls, headerRead. by destruct (_sheet (this s)).
  - intros B s Hu. by apply getHeadings_loaded.
  - done.
  - intros B s sh n Hr Hu He.
    destruct (getHeadings_times n s sh Hr Hu He) as (s' & cs & Ht & Hc & Hf).
    exists s'. split; [done|]. rewrite (newCalls_app _ _ _ Hc), Hf.
    apply length_replicate.
Qed.

Lemma getHeadings_empty_not_loaded_witness :
  ∃ s', times 3 getHeadings (Grid.query blankSheet "E") = (Ok tt, s') ∧
        length (List.filter isHeaderRead (newCalls (Grid.query blankSheet "E") s')) = 3%nat.
Proof.
  apply (proj2 (proj2 (proj2 (proj2 getHeadings_empty_not_loaded)))
           Grid.store (Grid.query blankSheet "E") "E" 3%nat).
  - vm_compute. reflexivity.
  - reflexivity.
  - vm_compute. reflexivity.
Defined.

(** * Further properties *)

Lemma runOp_cacheInv {B : BackingStore} (o : Op) (s : State) :
  cacheInv s → cacheInv (runOp o s).
Proof.
  intros Hi. destruct o; unfold runOp.
  - exact (respects_snd keepsInv _ s (select_keepsInv names) Hi).
  - exact (respects_snd keepsInv _ s (from_keepsInv name) Hi).
  - exact (respects_snd keepsInv _ s (where_keepsInv fn) Hi).
  - exact (respects_snd keepsInv _ s getSheet_keepsInv Hi).
  - exact (respects_snd keepsInv _ s getHeadings_keepsInv Hi).
  - exact (respects_snd keepsInv _ s getValues_keepsInv Hi).
  - exact (respects_snd keepsInv _ s getRows_keepsInv Hi).
  - exact (respects_snd keepsInv _ s (insertRows_keepsInv newRows) Hi).
  - exact (respects_snd keepsInv _ s (updateRows_keepsInv updateFn) Hi).
  - exact (respects_snd keepsInv _ s deleteRows_keepsInv Hi).
  - exact (respects_snd keepsInv _ s clearCache_keepsInv Hi).
Qed.

Lemma runOps_cacheInv {B : BackingStore} (ops : list Op) (s : State) :
  cacheInv s → cacheInv (runOps ops s).
Proof.
  revert s. induction ops as [|o ops IH]; intros s Hi; [done|].
  simpl. apply IH. by apply runOp_cacheInv.
Qed.

(** X1.  What [getRows] returns is the row cache filtered: when it
    returns [rows], the cache holds a list [all] of which [rows] is a
    sublist in the same order, a record is returned exactly when it is
    cached and the filter (if any) accepts it, and asking again in the
    state reached returns the same rows and changes nothing. *)
Theorem getRows_filter_purity {B : BackingStore} (s s1 : State) (rows : list RowObject) :
  getRows s = (Ok rows, s1) →
  ∃ all : list RowObject,
    _sheetValues (this s1) = Some all ∧
    sublist rows all ∧
    (∀ ro, ro ∈ rows ↔ ro ∈ all ∧ selects (whereFn (this s)) ro = true) ∧
    getRows s1 = (Ok rows, s1).
Proof.
  intros Hg. destruct (getRows_Ok_inv s s1 rows Hg) as (all & Hv & ->).
  pose proof (getValues_caches s s1 all Hv) as Hc.
  exists all. split; [done|]. split; [apply selection_sublist|].
  split; [apply selection_elem|].
  rewrite getRows_run, (getValues_cached s1 all Hc).
  by rewrite (getValues_whereFn _ _ _ Hv).
Qed.

Lemma getRows_filter_purity_witness :
  ∃ all : list RowObject,
    _sheetValues (this (getRows demoDelete).2) = Some all ∧
    sublist demoSelected all ∧
    (∀ ro, ro ∈ demoSelected ↔ ro ∈ all ∧ selects (whereFn (this demoDelete)) ro = true) ∧
    getRows (getRows demoDelete).2 = (Ok demoSelected, (getRows demoDelete).2).
Proof.
  apply (getRows_filter_purity (B := Grid.store) demoDelete).
  apply pair_fst_eq. vm_compute. reflexivity.
Defined.

(** X2.  [where] replaces the filter and does not touch the cache: with
    the rows [all] cached, [where(fn)] followed by [getRows] returns
    [all] filtered by [fn] alone, whatever filter was set before, and
    no call reaches the service. *)
Theorem where_refilters_cache {B : BackingStore} (s : State) (all : list RowObject)
    (fn0 fn : WhereFn) :
  _sheetValues (this s) = Some all →
  getRows (where_ fn s).2 = (Ok (List.filter fn all), (where_ fn s).2) ∧
  getRows (where_ fn (where_ fn0 s).2).2
    = (Ok (List.filter fn all), (where_ fn (where_ fn0 s).2).2) ∧
  calls (where_ fn (where_ fn0 s).2).2 = calls s.
Proof.
  intros Hc. split; [|split; [|done]].
  - rewrite getRows_run, (getValues_cached _ all); done.
  - rewrite getRows_run, (getValues_cached _ all); done.
Qed.

Lemma where_refilters_cache_witness :
  getRows (where_ pick (getValues (Grid.query demo "S")).2).2
    = (Ok (List.filter pick
             (materialize (Some [VStr "A"; VStr "B"]) 2 demoBlock)),
       (where_ pick (getValues (Grid.query demo "S")).2).2) ∧
  getRows (where_ pick (where_ (λ _, false) (getValues (Grid.query demo "S")).2).2).2
    = (Ok (List.filter pick
             (materialize (Some [VStr "A"; VStr "B"]) 2 demoBlock)),
       (where_ pick (where_ (λ _, false) (getValues (Grid.query demo "S")).2).2).2) ∧
  calls (where_ pick (where_ (λ _, false) (getValues (Grid.query demo "S")).2).2).2
    = calls (getValues (Grid.query demo "S")).2.
Proof.
  apply (where_refilters_cache (B := Grid.store) (getValues (Grid.query demo "S")).2).
  vm_compute. reflexivity.
Defined.






(** X6.  When the table name does not resolve and nothing is cached,
    every method that needs the table throws a TypeError after the
    lookup, and nothing is written: [getHeadings], [getValues],
    [getRows], [deleteRows] and [updateRows] after one lookup,
    [insertRows] after two, since it looks the table up again for the
    headings. *)
Theorem unresolved_table_throws {B : BackingStore} (s : State)
    (newRows : list DictObject) (updateFn : UpdateFn) :
  resolved s = None → _sheetValues (this s) = None →
  headingsUnloaded (_sheetHeadings (this s)) = true →
  let lookup := CGetSheetByName (sheetName (this s)) in
  getHeadings s = (Err TypeError, runCalls [lookup] s) ∧
  getValues s = (Err TypeError, runCalls [lookup] s) ∧
  getRows s = (Err TypeError, runCalls [lookup] s) ∧
  deleteRows s = (Err TypeError, runCalls [lookup] s) ∧
  updateRows updateFn s = (Err TypeError, runCalls [lookup] s) ∧
  insertRows newRows s = (Err TypeError, runCalls [lookup; lookup] s) ∧
  app (runCalls [lookup; lookup] s) = app s.
Proof.
  intros Hr Hc Hu lookup.
  pose proof (afterGetSheet_unresolved s Hr) as Ha. fold lookup in Ha.
  assert (Hr1 : resolved (runCalls [lookup] s) = None) by exact Hr.
  split; [by rewrite getHeadings_null, Ha|].
  split; [by rewrite getValues_null, Ha|].
  split; [by rewrite getRows_null, Ha|].
  split; [unfold deleteRows; by rewrite bind_run, getRows_null, Ha|].
  split; [unfold updateRows; by rewrite bind_run, getRows_null, Ha|].
  split; [|done].
  unfold insertRows. rewrite bind_run, getSheet_run, Hr, Ha.
  rewrite bind_run, getHeadings_null by done.
  rewrite (afterGetSheet_unresolved _ Hr1). by rewrite runCalls_app.
Qed.

Lemma unresolved_table_throws_witness :
  let s := Grid.query demo "Nope" in
  let lookup := CGetSheetByName (sheetName (this s)) in
  getHeadings s = (Err TypeError, runCalls [lookup] s) ∧
  getValues s = (Err TypeError, runCalls [lookup] s) ∧
  getRows s = (Err TypeError, runCalls [lookup] s) ∧
  deleteRows s = (Err TypeError, runCalls [lookup] s) ∧
  updateRows keepAsIs s = (Err TypeError, runCalls [lookup] s) ∧
  insertRows [] s = (Err TypeError, runCalls [lookup; lookup] s) ∧
  app (runCalls [lookup; lookup] s) = app s.
Proof.
  apply (unresolved_table_throws (B := Grid.store) (Grid.query demo "Nope")).
  - vm_compute. reflexivity.
  - reflexivity.
  - reflexivity.
Defined.

(** X7.  Records flatten back to the block they were read from: when
    the headings are as many as the columns, pairwise distinct as
    property keys, none of them an array index and none a reserved
    name, and every row of the block has that many cells, stripping the
    metadata of each record [getValues] returns and listing its values
    gives the data block again, row by row and cell by cell. *)
Theorem getValues_rows_flatten_back {B : BackingStore} (s s1 : State)
    (rows : list RowObject) (sh : Sheet) (hs : list value) :
  _sheetValues (this s) = None → getValues s = (Ok rows, s1) →
  resolved s = Some sh → headingsIn s sh = Some hs → plainHeadings hs →
  length hs = Z.to_nat (getLastColumn (app s) sh) →
  NoDup (toPropertyKey <$> hs) →
  Forall (λ h, arrayIndex (toPropertyKey h) = None) hs →
  Forall (λ cells, length cells = Z.to_nat (getLastColumn (app s) sh)) (dataBlock (app s) sh) →
  (λ ro, Object_values (deleteMeta ro)) <$> rows = dataBlock (app s) sh.
Proof.
  intros Hc Hg Hr Hh _ Hlen Hnd Hnamed Hrect.
  destruct (getValues_Ok_inv s s1 rows Hc Hg) as (sh' & Hr' & -> & _).
  assert (sh' = sh) as -> by congruence. rewrite Hh.
  exact (materialize_flatten hs _ _ 0 Hlen Hnd Hnamed Hrect).
Qed.

Lemma getValues_rows_flatten_back_witness :
  (λ ro, Object_values (deleteMeta ro))
    <$> materialize (Some [VStr "A"; VStr "B"]) 2 demoBlock
  = dataBlock (B := Grid.store) (app (Grid.query demo "S")) "S".
Proof.
  apply (getValues_rows_flatten_back (B := Grid.store) (Grid.query demo "S")
           (getValues (Grid.query demo "S")).2 _ "S" [VStr "A"; VStr "B"]).
  - reflexivity.
  - apply pair_fst_eq. vm_compute. reflexivity.
  - vm_compute. reflexivity.
  - vm_compute. reflexivity.
  - apply plainHeadings_check. vm_compute. reflexivity.
  - vm_compute. reflexivity.
  - apply (bool_decide_unpack _). vm_compute. exact I.
  - repeat (constructor; [reflexivity|]). constructor.
  - replace (dataBlock (app (Grid.query demo "S")) "S") with demoBlock
      by (vm_compute; reflexivity).
    repeat (constructor; [reflexivity|]). constructor.
Defined.

(** X8.  A numeric heading moves its column to the front of the rows
    [updateRows] writes.  On a two-column table whose second heading is
    an array index (a year, say) and whose first is neither that nor a
    reserved name, from an empty cache with no filter set: when the
    callback leaves its record alone and returns nothing or the record
    itself, [updateRows] writes, for each row of the block read, the
    two cells of that row in reverse order to that row's position. *)
Theorem numeric_heading_swaps_columns {B : BackingStore} (s : State) (sh : Sheet)
    (h1 h2 : value) (n : N) (updateFn : UpdateFn) :
  _sheetValues (this s) = None → resolved s = Some sh → whereFn (this s) = None →
  headingsIn s sh = Some [h1; h2] → plainHeadings [h1; h2] →
  getLastColumn (app s) sh = 2 →
  arrayIndex (toPropertyKey h1) = None → arrayIndex (toPropertyKey h2) = Some n →
  Forall (λ cells, length cells = 2%nat) (dataBlock (app s) sh) →
  (∀ ro, updateFn ro = (ro, RetUndefined) ∨ updateFn ro = (ro, RetSame)) →
  (updateRows updateFn s).1 = Ok tt ∧
  List.filter isWrite (newCalls s (updateRows updateFn s).2)
  = imap (λ r cells, CSetValues sh (Z.of_nat r + 2) 1 1 2 [reverse cells])
      (dataBlock (app s) sh).
Proof.
  intros Hc Hr Hw Hh _ HC H1 H2 Hrect Hfn.
  destruct (updateRows_fresh_writes s sh updateFn Hc Hr Hw) as [Hok Hcalls].
  { left. rewrite Hh. eauto. }
  split; [exact Hok|]. rewrite Hcalls, HC, Hh. simpl default.
  apply imap_ext. intros r cells Hl. cbv zeta.
  assert (Hlen : length cells = 2%nat).
  { eapply Forall_forall in Hrect; [exact Hrect|]. by eapply list_elem_of_lookup_2. }
  destruct cells as [|c1 [|c2 [|]]]; try done.
  assert (Hv : Object_values (deleteMeta (recordOf [h1; h2] 2 r [c1; c2])) = [c2; c1])
    by apply (Object_values_swapped h1 h2 c1 c2 r n H1 H2).
  do 2 f_equal.
  destruct (Hfn (recordOf [h1; h2] 2 r [c1; c2])) as [-> | ->]; cbn [fst snd].
  - exact Hv.
  - by rewrite updatedValues_same.
Qed.

Lemma numeric_heading_swaps_columns_witness :
  (updateRows keepAsIs (Grid.query ledger "Y")).1 = Ok tt ∧
  List.filter isWrite
    (newCalls (Grid.query ledger "Y") (updateRows keepAsIs (Grid.query ledger "Y")).2)
  = imap (λ r cells, CSetValues "Y" (Z.of_nat r + 2) 1 1 2 [reverse cells])
      (dataBlock (B := Grid.store) (app (Grid.query ledger "Y")) "Y").
Proof.
  apply (numeric_heading_swaps_columns (B := Grid.store) (Grid.query ledger "Y") "Y"
           (VStr "Name") (VNum 2021) 2021%N keepAsIs).
  - reflexivity.
  - vm_compute. reflexivity.
  - reflexivity.
  - vm_compute. reflexivity.
  - apply plainHeadings_check. vm_compute. reflexivity.
  - vm_compute. reflexivity.
  - reflexivity.
  - vm_compute. reflexivity.
  - replace (dataBlock (app (Grid.query ledger "Y")) "Y")
      with [[VStr "Ada"; VNum 7]; [VStr EmptyString; VStr EmptyString]]
      by (vm_compute; reflexivity).
    repeat (constructor; [reflexivity|]). constructor.
  - intros ro. by left.
Defined.

(** The sample, computed: the row [Ada, 7] under the headings
    [Name, 2021] is written back as [7, Ada]. *)
Example ledger_rows_written :
  List.filter isWrite (calls (updateRows keepAsIs (Grid.query ledger "Y")).2)
  = [ CSetValues "Y" 2 1 1 2 [[VNum 7; VStr "Ada"]];
      CSetValues "Y" 3 1 1 2 [[VStr EmptyString; VStr EmptyString]] ].
Proof. vm_compute. reflexivity. Qed.

(** X9.  For headings without reserved names, every record
    [getValues] returns has pairwise distinct keys, and reading it
    under the heading of column [c] gives the cell of column [c] of its
    row, provided no later column bears the same heading (as a property
    key); with repeated headings the last column wins. *)
Theorem getValues_record_lookup {B : BackingStore} (s s1 : State) (rows : list RowObject) :
  _sheetValues (this s) = None → plainTable s → getValues s = (Ok rows, s1) →
  ∃ (sh : Sheet),
    resolved s = Some sh ∧
    ∀ (r : nat) (ro : RowObject), rows !! r = Some ro →
      NoDup (fields ro).*1 ∧
      ∀ (cells : list value) (c : nat),
        dataBlock (app s) sh !! r = Some cells →
        (c < Z.to_nat (getLastColumn (app s) sh))%nat →
        (∀ c', (c < c' < Z.to_nat (getLastColumn (app s) sh))%nat →
           toPropertyKey (nth c' (default [] (headingsIn s sh)) VUndefined)
           ≠ toPropertyKey (nth c (default [] (headingsIn s sh)) VUndefined)) →
        getProp ro (toPropertyKey (nth c (default [] (headingsIn s sh)) VUndefined))
        = nth c cells VUndefined.
Proof.
  intros Hc _ Hg.
  destruct (getValues_Ok_inv s s1 rows Hc Hg) as (sh & Hr & -> & _).
  exists sh. split; [done|]. intros r ro Hl.
  unfold materialize in Hl. rewrite list_lookup_imap in Hl.
  destruct (dataBlock (app s) sh !! r) as [cells0|] eqn:E; [|done].
  simpl in Hl. injection Hl as <-. split; [apply recordOf_NoDup|].
  intros cells c [= <-] Hlt Hlast. by apply recordOf_getProp.
Qed.

Lemma getValues_record_lookup_witness :
  ∃ (sh : Sheet),
    resolved (Grid.query small "T") = Some sh ∧
    ∀ (r : nat) (ro : RowObject), smallRows !! r = Some ro →
      NoDup (fields ro).*1 ∧
      ∀ (cells : list value) (c : nat),
        dataBlock (app (Grid.query small "T")) sh !! r = Some cells →
        (c < Z.to_nat (getLastColumn (app (Grid.query small "T")) sh))%nat →
        (∀ c', (c < c' < Z.to_nat (getLastColumn (app (Grid.query small "T")) sh))%nat →
           toPropertyKey (nth c' (default [] (headingsIn (Grid.query small "T") sh)) VUndefined)
           ≠ toPropertyKey (nth c (default [] (headingsIn (Grid.query small "T") sh)) VUndefined)) →
        getProp ro (toPropertyKey (nth c (default [] (headingsIn (Grid.query small "T") sh)) VUndefined))
        = nth c cells VUndefined.
Proof.
  apply (getValues_record_lookup (B := Grid.store) (Grid.query small "T")
           (getValues (Grid.query small "T")).2).
  - reflexivity.
  - apply plainTable_check. vm_compute. reflexivity.
  - apply pair_fst_eq. vm_compute. reflexivity.
Defined.

(** X10.  The read path never writes: whatever [getSheet],
    [getHeadings], [getValues] and [getRows] return or throw, the
    service is left as it was and none of the calls they make is a
    write or a flush. *)
Theorem read_path_is_read_only {B : BackingStore} (s : State) :
  (app (getSheet s).2 = app s ∧
   Forall (λ c, isWrite c = false ∧ isFlush c = false) (newCalls s (getSheet s).2)) ∧
  (app (getHeadings s).2 = app s ∧
   Forall (λ c, isWrite c = false ∧ isFlush c = false) (newCalls s (getHeadings s).2)) ∧
  (app (getValues s).2 = app s ∧
   Forall (λ c, isWrite c = false ∧ isFlush c = false) (newCalls s (getValues s).2)) ∧
  (app (getRows s).2 = app s ∧
   Forall (λ c, isWrite c = false ∧ isFlush c = false) (newCalls s (getRows s).2)).
Proof.
  pose proof (respects_snd readOnly _ s getSheet_readOnly) as [H1 H1'].
  pose proof (respects_snd readOnly _ s getHeadings_readOnly) as [H2 H2'].
  pose proof (respects_snd readOnly _ s getValues_readOnly) as [H3 H3'].
  pose proof (respects_snd readOnly _ s getRows_readOnly) as [H4 H4'].
  repeat split; try done; by apply onlyCalls_newCalls.
Qed.

(** X11.  Each mutating method changes cells in one way only,
    whatever it returns or throws: [insertRows] only appends rows and
    never flushes; [deleteRows] only deletes one-row blocks that start
    at column 1; [updateRows] only writes one-row blocks that start at
    column 1, one flat row each. *)
Theorem mutations_write_one_way {B : BackingStore} (s : State)
    (newRows : list DictObject) (updateFn : UpdateFn) :
  Forall (λ c, isFlush c = false ∧ (isWrite c = true → ∃ sh values, c = CAppendRow sh values))
    (newCalls s (insertRows newRows s).2) ∧
  Forall (λ c, isWrite c = true → ∃ sh r nc, c = CDeleteCells sh r 1 1 nc)
    (newCalls s (deleteRows s).2) ∧
  Forall (λ c, isWrite c = true → ∃ sh r nc values, c = CSetValues sh r 1 1 nc [values])
    (newCalls s (updateRows updateFn s).2).
Proof.
  split; [|split].
  - exact (onlyCalls_newCalls _ _ _
             (respects_snd _ _ s (insertRows_appendsOnly newRows))).
  - exact (onlyCalls_newCalls _ _ _ (respects_snd _ _ s deleteRows_deletesOnly)).
  - exact (onlyCalls_newCalls _ _ _
             (respects_snd _ _ s (updateRows_setsOnly updateFn))).
Qed.

(** ** On the table store *)

Lemma Grid_padded_fits (numCols : Z) (cells : list value) :
  length cells = Z.to_nat numCols → padded numCols cells = cells.
Proof.
  intros H. unfold padded. rewrite take_app_length' by done. done.
Qed.

Lemma Grid_padded_length (numCols : Z) (cells : list value) :
  length (padded numCols cells) = Z.to_nat numCols.
Proof.
  unfold padded. rewrite length_take, length_app, length_replicate. lia.
Qed.

Lemma Grid_padded_nil (numCols : Z) :
  padded numCols [] = replicate (Z.to_nat numCols) Grid.blank.
Proof. unfold padded. simpl. by rewrite take_replicate, Nat.min_id. Qed.

(** A row written from its first cell on, by at least as many cells as
    it has, is the cells written. *)
Lemma Grid_overwrite_all (values cells : list value) :
  (length cells ≤ length values)%nat → Grid.overwrite 0 values cells = values.
Proof.
  intros H. unfold Grid.overwrite. rewrite take_0. simpl.
  rewrite drop_ge by lia. by rewrite app_nil_r.
Qed.

(** A write of one row at column 1 changes that row only; the row just
    below the last one is added. *)
Lemma Grid_writeBlock_row (t : Grid.Table) (r : nat) (values : list value) :
  Grid.writeBlock t (Z.of_nat r + 2) 1 [values]
  = alter (Grid.overwrite 0 values) (S r) (t ++ replicate (S r + 1 - length t) []).
Proof.
  unfold Grid.writeBlock.
  replace ((1 <=? Z.of_nat r + 2) && (1 <=? 1))%Z with true
    by (symmetry; apply andb_true_iff; split; apply Z.leb_le; lia).
  replace (Z.to_nat (Z.of_nat r + 2 - 1)) with (S r) by lia.
  replace (Z.to_nat (1 - 1)) with 0%nat by lia.
  change (length [values]) with 1%nat.
  generalize (t ++ replicate (S r + 1 - length t) []). intros t'.
  apply list_eq. intros i. rewrite list_lookup_imap.
  destruct (decide (i = S r)) as [->|Hne].
  - rewrite list_lookup_alter_eq, Nat.sub_diag. simpl.
    destruct (t' !! S r); [|done]. simpl. by rewrite decide_True.
  - rewrite list_lookup_alter_ne by done.
    destruct (t' !! i) as [row|]; [|done]. simpl. f_equal.
    destruct (decide (S r ≤ i)%nat) as [Hle|Hlt]; [|by case_match].
    replace (i - S r)%nat with (S (i - S r - 1)) by lia. done.
Qed.

Lemma max_list_app (l k : list nat) :
  max_list (l ++ k) = (max_list l `max` max_list k)%nat.
Proof.
  induction l as [|n l IH]; [done|]. cbn [Datatypes.app max_list]. rewrite IH.
  apply Nat.max_assoc.
Qed.

Lemma max_list_bound (l : list nat) (m : nat) :
  Forall (λ n, (n ≤ m)%nat) l → (max_list l ≤ m)%nat.
Proof.
  induction 1 as [|n l Hn _ IH]; cbn [max_list]; [apply Nat.le_0_l|].
  by apply Nat.max_lub.
Qed.

Lemma Grid_lastColumn_header (header : list value) (data : Grid.Table) :
  Forall (λ d, (length d ≤ length header)%nat) data →
  Grid.lastColumn (header :: data) = Z.of_nat (length header).
Proof.
  intros H. unfold Grid.lastColumn. f_equal. rewrite fmap_cons. simpl.
  apply Nat.max_l, max_list_bound, Forall_fmap.
  eapply Forall_impl; [exact H|]. done.
Qed.

Lemma Grid_lastColumn_app (header : list value) (data rows : Grid.Table) :
  Forall (λ cells, length cells = Z.to_nat (Grid.lastColumn (header :: data))) rows →
  Grid.lastColumn (header :: data ++ rows) = Grid.lastColumn (header :: data).
Proof.
  intros H. unfold Grid.lastColumn in *. f_equal.
  rewrite Nat2Z.id in H. rewrite app_comm_cons, fmap_app, max_list_app.
  apply Nat.max_l, max_list_bound, Forall_fmap.
  eapply Forall_impl; [exact H|]. intros cells Hc. simpl in *. by rewrite Hc.
Qed.

(** The header row as [getHeadings] reads it from a table. *)
Lemma Grid_headerRow (a : gmap string Grid.Table) (sh : string) (header : list value)
    (data : Grid.Table) :
  a !! sh = Some (header :: data) →
  headerRow (B := Grid.store) a sh
  = Some (padded (Grid.lastColumn (header :: data)) header).
Proof.
  intros Ha. unfold headerRow. simpl. unfold Grid.table. rewrite Ha. simpl.
  unfold Grid.readBlock. simpl. by rewrite drop_0.
Qed.

(** A fresh read of a table, whatever the builder did before: with no
    rows and no headings cached, [getValues] returns the records of the
    rows of the table as it is now, and of the blank row below them. *)
Lemma Grid_getValues_fresh (s : State) (sh : string) (header : list value)
    (data : Grid.Table) :
  (app s : gmap string Grid.Table) !! sh = Some (header :: data) → resolved s = Some sh →
  _sheetValues (this s) = None → headingsUnloaded (_sheetHeadings (this s)) = true →
  (getValues s).1
  = Ok (materialize (Some (padded (Grid.lastColumn (header :: data)) header))
          (Grid.lastColumn (header :: data))
          (padded (Grid.lastColumn (header :: data)) <$> (data ++ [[]]))).
Proof.
  intros Ha Hr Hc Hu.
  assert (Hcol : getLastColumn (app s) sh = Grid.lastColumn (header :: data)).
  { simpl. unfold Grid.table. by rewrite Ha. }
  rewrite (getValues_load s sh Hc Hr (Grid_loadable s sh)). cbn [fst].
  unfold headingsIn. by rewrite Hu, Hcol, (Grid_headerRow _ _ _ _ Ha), (Grid_dataBlock _ _ _ _ Ha).
Qed.

Lemma Grid_appendRows (a : gmap string Grid.Table) (sh : string) (t rows : Grid.Table) :
  a !! sh = Some t →
  (foldl (perform (B := Grid.store)) a (CAppendRow sh <$> rows) : gmap string Grid.Table) !! sh
  = Some (t ++ rows).
Proof.
  revert a t. induction rows as [|cells rows IH]; intros a t Ha.
  - simpl. by rewrite app_nil_r.
  - rewrite fmap_cons. cbn [foldl perform]. rewrite (IH _ (t ++ [cells])).
    + by rewrite <- app_assoc.
    + simpl appendRow. by rewrite (lookup_alter_eq (M := gmap string)), Ha.
Qed.

(** The writes of [updateRows], row by row: [pre] holds the rows above
    those of [data], the first of which is at index [k] of the block. *)
Lemma Grid_updateCalls_rows (fn : option WhereFn) (updateFn : UpdateFn) (hs : list value)
    (numCols : Z) (sh : string) (data pre : Grid.Table) (k : nat)
    (a : gmap string Grid.Table) :
  a !! sh = Some (pre ++ data) → length pre = S k →
  (foldl (perform (B := Grid.store)) a
     (zip_with (updateCall sh updateFn)
        (selection fn (imap (λ r cells, recordOf hs numCols (k + r) cells)
                         (padded numCols <$> (data ++ [[]]))))
        (selectedMetas (λ r d, selects fn (recordOf hs numCols r (padded numCols d)))
           numCols k (data ++ [[]]))) : gmap string Grid.Table) !! sh
  = Some (pre ++ imap (λ j d, rewritten fn updateFn hs numCols (k + j) d) data
              ++ pastEnd fn updateFn hs numCols (k + length data)).
Proof.
  revert pre k a. induction data as [|d data IH]; intros pre k a Ha Hlen.
  - cbn [Datatypes.app fmap list_fmap imap selectedMetas length]. rewrite Nat.add_0_r.
    unfold pastEnd, rewritten. cbv zeta.
    assert (Hsel : selection fn [recordOf hs numCols k (padded numCols [])]
                   = if selects fn (recordOf hs numCols k (padded numCols []))
                     then [recordOf hs numCols k (padded numCols [])] else []).
    { destruct fn as [f|]; simpl; [|done]. by destruct (f _). }
    rewrite Hsel.
    destruct (selects fn (recordOf hs numCols k (padded numCols []))) eqn:E.
    + cbn [zip_with foldl]. unfold updateCall.
      cbn [row cols perform setValues Grid.store].
      rewrite (lookup_alter_eq (M := gmap string)), Ha. simpl. f_equal.
      rewrite Grid_writeBlock_row, !app_nil_r.
      replace (S k + 1 - length pre)%nat with 1%nat by lia. simpl replicate.
      rewrite <- Hlen, <- (Nat.add_0_r (length pre)), alter_app_r. done.
    + simpl. by rewrite Ha.
  - rewrite <- app_comm_cons, fmap_cons. cbn [imap selectedMetas length].
    assert (Hrest : imap ((λ r cells, recordOf hs numCols (k + r) cells) ∘ S)
                      (padded numCols <$> (data ++ [[]]))
                    = imap (λ r cells, recordOf hs numCols (S k + r) cells)
                        (padded numCols <$> (data ++ [[]]))).
    { apply imap_ext. intros r x _. simpl. by rewrite Nat.add_succ_r. }
    assert (Hrest' : imap ((λ j d, rewritten fn updateFn hs numCols (k + j) d) ∘ S) data
                     = imap (λ j d, rewritten fn updateFn hs numCols (S k + j) d) data).
    { apply imap_ext. intros r x _. simpl. by rewrite Nat.add_succ_r. }
    rewrite Hrest, Hrest', Nat.add_0_r.
    replace (k + S (length data))%nat with (S k + length data)%nat by lia.
    assert (Hsel : selection fn (recordOf hs numCols k (padded numCols d)
                                 :: imap (λ r cells, recordOf hs numCols (S k + r) cells)
                                      (padded numCols <$> (data ++ [[]])))
                   = if selects fn (recordOf hs numCols k (padded numCols d))
                     then recordOf hs numCols k (padded numCols d)
                          :: selection fn (imap (λ r cells, recordOf hs numCols (S k + r) cells)
                                             (padded numCols <$> (data ++ [[]])))
                     else selection fn (imap (λ r cells, recordOf hs numCols (S k + r) cells)
                                          (padded numCols <$> (data ++ [[]])))).
    { destruct fn as [f|]; simpl; [|done]. by destruct (f _). }
    rewrite Hsel. unfold rewritten at 1. cbv zeta.
    destruct (selects fn (recordOf hs numCols k (padded numCols d))) eqn:E.
    + cbn [zip_with foldl].
      rewrite (IH (pre ++ [Grid.overwrite 0
                             (updatedValues
                                (updateFn (recordOf hs numCols k (padded numCols d))).1
                                (updateFn (recordOf hs numCols k (padded numCols d))).2)
                             d]) (S k)).
      * by rewrite <- !app_assoc.
      * unfold updateCall. cbn [row cols perform setValues Grid.store].
        rewrite (lookup_alter_eq (M := gmap string)), Ha. simpl. f_equal.
        rewrite Grid_writeBlock_row.
        replace (S k + 1 - length (pre ++ d :: data))%nat with 0%nat
          by (rewrite length_app; simpl; lia).
        simpl replicate. rewrite app_nil_r, <- Hlen.
        rewrite <- (Nat.add_0_r (length pre)), alter_app_r. simpl.
        by rewrite <- app_assoc.
      * rewrite length_app. simpl. lia.
    + rewrite (IH (pre ++ [d]) (S k) a).
      * by rewrite <- !app_assoc.
      * by rewrite <- app_assoc.
      * rewrite length_app. simpl. lia.
Qed.

(** What [updateRows] does to a table, for any callback and filter. *)
Lemma Grid_updateRows_table (a : gmap string Grid.Table) (sh : string)
    (header : list value) (data : Grid.Table) (s : State) (updateFn : UpdateFn) :
  a !! sh = Some (header :: data) → app s = a → resolved s = Some sh →
  _sheetValues (this s) = None →
  (updateRows updateFn s).1 = Ok tt ∧
  Grid.table (app (updateRows updateFn s).2) sh
  = header :: imap (rewritten (whereFn (this s)) updateFn (default [] (headingsIn s sh))
                      (Grid.lastColumn (header :: data))) data
           ++ pastEnd (whereFn (this s)) updateFn (default [] (headingsIn s sh))
                (Grid.lastColumn (header :: data)) (length data).
Proof.
  intros Ha Hs Hr Hc. subst a.
  pose proof (getValues_load s sh Hc Hr (Grid_loadable s sh)) as Hg. cbv zeta in Hg.
  pose proof (Grid_dataBlock (app s) sh header data Ha) as Hb.
  assert (HC : getLastColumn (app s) sh = Grid.lastColumn (header :: data)).
  { simpl. unfold Grid.table. by rewrite Ha. }
  rewrite HC, Hb in Hg.
  set (numCols := Grid.lastColumn (header :: data)) in *.
  set (hs := default [] (headingsIn s sh)).
  set (rows := materialize (headingsIn s sh) numCols (padded numCols <$> (data ++ [[]]))) in *.
  set (sel := λ r d, selects (whereFn (this s)) (recordOf hs numCols r (padded numCols d))).
  assert (Hrows : getRows s = (Ok (selection (whereFn (this s)) rows), loaded s sh rows)).
  { by rewrite getRows_run, Hg, loaded_whereFn. }
  assert (Hms : __meta <$> selection (whereFn (this s)) rows
                = Some <$> selectedMetas sel numCols 0 (data ++ [[]])).
  { exact (selection_selectedMetas (whereFn (this s)) hs numCols (data ++ [[]]) 0). }
  rewrite (updateRows_run (B := Grid.store) updateFn s _ _ sh _ Hrows
             (loaded_sheet s sh rows Hr) Hms).
  split; [done|]. cbn [snd app withThis runCalls]. rewrite foldl_app.
  cbn [foldl perform flush Grid.store]. rewrite (loaded_app s sh rows).
  exact (f_equal (default [])
           (Grid_updateCalls_rows (whereFn (this s)) updateFn hs numCols sh data [header] 0
              (app s) Ha eq_refl)).
Qed.

(** The flat row of a record read under clean headings, for a callback
    that leaves the record alone: the cells the record was read from. *)
Lemma Grid_flat_same (header cells : list value) (r : nat) (updateFn : UpdateFn) :
  NoDup (toPropertyKey <$> header) →
  Forall (λ h, arrayIndex (toPropertyKey h) = None) header →
  length cells = length header →
  (∀ ro, updateFn ro = (ro, RetUndefined) ∨ updateFn ro = (ro, RetSame)) →
  updatedValues (updateFn (recordOf header (Z.of_nat (length header)) r cells)).1
    (updateFn (recordOf header (Z.of_nat (length header)) r cells)).2
  = cells.
Proof.
  intros Hnd Hnamed Hlen Hfn.
  assert (Hflat : Object_values (deleteMeta (recordOf header (Z.of_nat (length header)) r cells))
                  = cells)
    by (apply Object_values_recordOf; try done; lia).
  destruct (Hfn (recordOf header (Z.of_nat (length header)) r cells)) as [-> | ->];
    cbn [fst snd]; [exact Hflat|by rewrite updatedValues_same].
Qed.

(** Assigning to the key of column [c] of a record with distinct keys
    changes the value of that column and keeps the order. *)
Lemma assign_zip (ks : list string) (cells : list value) (c : nat) (k : string) (v : value) :
  NoDup ks → ks !! c = Some k →
  assign k v (zip ks cells) = zip ks (<[c := v]> cells) ∨ (length cells ≤ c)%nat.
Proof.
  intros Hnd. revert cells c. induction Hnd as [|k0 ks Hk0 Hnd IH]; intros cells c Hc; [done|].
  destruct cells as [|x cells]; [right; simpl; lia|].
  destruct c as [|c]; simpl in Hc.
  - injection Hc as ->. left. simpl. by rewrite decide_True.
  - assert (k ≠ k0) by (intros ->; apply Hk0; by eapply list_elem_of_lookup_2).
    destruct (IH cells c Hc) as [Heq|Hle]; [left|right; simpl; lia].
    simpl. rewrite decide_False by done. by rewrite Heq.
Qed.

(** The flat row of a record read under clean headings, for a callback
    that assigns under the heading of column [c]. *)
Lemma Grid_flat_set (header cells : list value) (r c : nat) (h v : value)
    (res : UpdateResult) :
  NoDup (toPropertyKey <$> header) →
  Forall (λ h, arrayIndex (toPropertyKey h) = None) header →
  length cells = length header → header !! c = Some h →
  res = RetUndefined ∨ res = RetSame →
  updatedValues (setProp (recordOf header (Z.of_nat (length header)) r cells)
                   (toPropertyKey h) v) res
  = <[c := v]> cells.
Proof.
  intros Hnd Hnamed Hlen Hh Hres.
  set (numCols := Z.of_nat (length header)).
  assert (Hflat : Object_values (deleteMeta (setProp (recordOf header numCols r cells)
                                                (toPropertyKey h) v)) = <[c := v]> cells).
  { rewrite recordOf_distinct by (try done; subst numCols; lia).
    unfold setProp, deleteMeta. cbn [fields __meta].
    destruct (assign_zip (toPropertyKey <$> header) cells c (toPropertyKey h) v Hnd)
      as [Heq|Hle].
    { by rewrite list_lookup_fmap, Hh. }
    - rewrite Heq. rewrite Object_values_named.
      + rewrite snd_zip; [done|]. rewrite length_fmap, length_insert. lia.
      + apply Forall_forall. intros [k x] Hin. simpl.
        apply elem_of_zip_l in Hin. apply list_elem_of_fmap in Hin as (h' & -> & Hh').
        by eapply Forall_forall in Hnamed.
    - apply lookup_lt_Some in Hh. lia. }
  destruct Hres as [-> | ->]; [exact Hflat|].
  unfold updatedValues. cbn [setProp __meta recordOf]. exact Hflat.
Qed.

(** X12.  Deleting, then reading, on the table store: from an empty
    cache and with no heading on a reserved name, [deleteRows] returns,
    the table is left with its header and the rows the filter did not
    select, in order, and the next [getValues] reads again and returns
    the records of exactly those rows, numbered from 2 without gaps,
    followed by one record of blank cells for the row below the last
    one, which the block read always includes. *)
Theorem Grid_delete_then_read (a : gmap string Grid.Table) (sh : string)
    (header : list value) (data : Grid.Table) (s : State) :
  a !! sh = Some (header :: data) → app s = a → resolved s = Some sh →
  _sheetValues (this s) = None → plainTable s → plainHeadings header →
  let kept :=
    survivors (λ r d, selects (whereFn (this s))
                        (recordOf (default [] (headingsIn s sh))
                           (Grid.lastColumn (header :: data)) r
                           (padded (Grid.lastColumn (header :: data)) d)))
      0 data in
  let numCols := Grid.lastColumn (header :: kept) in
  (deleteRows s).1 = Ok tt ∧
  Grid.table (app (deleteRows s).2) sh = header :: kept ∧
  (getValues (deleteRows s).2).1
  = Ok (materialize (Some (padded numCols header)) numCols
          (padded numCols <$> (kept ++ [[]]))).
Proof.
  intros Ha Hs Hr Hc _ _ kept numCols.
  destruct (Grid_deleteRows_removes_selection a sh header data s Ha Hs Hr Hc)
    as (s2 & Hd & Ht).
  fold kept in Ht. rewrite Hd. cbn [fst snd]. split; [done|]. split; [exact Ht|].
  destruct (deleteRows_Ok_inv s s2 (cacheInv_empty s Hc) Hd)
    as (rows & s1 & sh' & ms & Hg & Hsh & _ & Hs2).
  destruct (getRows_Ok_inv s s1 rows Hg) as (all & Hv & _).
  destruct (getValues_Ok_inv s s1 all Hc Hv) as (sh0 & Hr0 & _ & Hs1).
  assert (sh0 = sh) as -> by congruence.
  assert (sh' = sh) as ->.
  { rewrite Hs1, (loaded_sheet s sh all Hr) in Hsh. congruence. }
  assert (Ha2 : (app s2 : gmap string Grid.Table) !! sh = Some (header :: kept)).
  { unfold Grid.table in Ht.
    destruct ((app s2 : gmap string Grid.Table) !! sh) as [t|];
      simpl in Ht; [by rewrite Ht|done]. }
  apply (Grid_getValues_fresh s2 sh header kept Ha2).
  - rewrite Hs2. unfold resolved. simpl. by rewrite Hsh.
  - by rewrite Hs2.
  - by rewrite Hs2.
Qed.

Lemma Grid_delete_then_read_witness :
  let kept :=
    survivors (λ r d, selects (whereFn (this demoDelete))
                        (recordOf (default [] (headingsIn demoDelete "S"))
                           (Grid.lastColumn ([VStr "A"; VStr "B"] :: demoData)) r
                           (padded (Grid.lastColumn ([VStr "A"; VStr "B"] :: demoData)) d)))
      0 demoData in
  let numCols := Grid.lastColumn ([VStr "A"; VStr "B"] :: kept) in
  (deleteRows demoDelete).1 = Ok tt ∧
  Grid.table (app (deleteRows demoDelete).2) "S" = [VStr "A"; VStr "B"] :: kept ∧
  (getValues (deleteRows demoDelete).2).1
  = Ok (materialize (Some (padded numCols [VStr "A"; VStr "B"])) numCols
          (padded numCols <$> (kept ++ [[]]))).
Proof.
  apply (Grid_delete_then_read demo "S" [VStr "A"; VStr "B"] demoData demoDelete).
  - vm_compute. reflexivity.
  - reflexivity.
  - vm_compute. reflexivity.
  - reflexivity.
  - apply plainTable_check. vm_compute. reflexivity.
  - apply plainHeadings_check. vm_compute. reflexivity.
Defined.

(** The sample deletion, computed. *)
Example demo_delete_then_read :
  (getValues (deleteRows demoDelete).2).1
  = Ok [ {| __meta := Some {| row := 2; cols := 2 |}; fields := [("A", VNum 3); ("B", VNum 4)] |};
         {| __meta := Some {| row := 3; cols := 2 |}; fields := [("A", VNum 7); ("B", VNum 8)] |};
         {| __meta := Some {| row := 4; cols := 2 |};
            fields := [("A", VStr EmptyString); ("B", VStr EmptyString)] |} ].
Proof. vm_compute. reflexivity. Qed.

Lemma imap_same {A} (f : nat → A → A) (l : list A) :
  (∀ i x, l !! i = Some x → f i x = x) → imap f l = l.
Proof.
  intros H. apply list_eq. intros i. rewrite list_lookup_imap.
  destruct (l !! i) as [x|] eqn:E; simpl; [|done]. f_equal. by apply H.
Qed.

(** Under clean headings, the row [updateRows] leaves in the place of a
    row as wide as the header is the flat row of its record. *)
Lemma Grid_rewritten_clean (fn : option WhereFn) (updateFn : UpdateFn)
    (header cells values : list value) (r : nat) :
  length cells = length header → length values = length header →
  updatedValues (updateFn (recordOf header (Z.of_nat (length header)) r cells)).1
    (updateFn (recordOf header (Z.of_nat (length header)) r cells)).2 = values →
  rewritten fn updateFn header (Z.of_nat (length header)) r cells
  = if selects fn (recordOf header (Z.of_nat (length header)) r cells) then values else cells.
Proof.
  intros Hc Hv Hval. unfold rewritten. cbv zeta.
  rewrite (Grid_padded_fits _ cells) by lia. rewrite Hval.
  destruct (selects _ _); [|done].
  apply Grid_overwrite_all. lia.
Qed.

Lemma Grid_pastEnd_clean (fn : option WhereFn) (updateFn : UpdateFn)
    (header values : list value) (r : nat) :
  length values = length header →
  updatedValues
    (updateFn (recordOf header (Z.of_nat (length header)) r
                 (replicate (length header) Grid.blank))).1
    (updateFn (recordOf header (Z.of_nat (length header)) r
                 (replicate (length header) Grid.blank))).2 = values →
  pastEnd fn updateFn header (Z.of_nat (length header)) r
  = if selects fn (recordOf header (Z.of_nat (length header)) r
                     (replicate (length header) Grid.blank))
    then [values] else [].
Proof.
  intros Hv Hval. unfold pastEnd, rewritten. cbv zeta.
  rewrite Grid_padded_nil, Nat2Z.id, Hval.
  destruct (selects _ _); [|done].
  f_equal. apply Grid_overwrite_all. simpl. lia.
Qed.

(** X13.  Reading a row and writing it back, on the table store: when
    no heading is a reserved name, the headings are pairwise distinct
    as property keys, none is an array index and every data row is as
    wide as the header, [updateRows] with a callback that leaves its
    record alone and returns nothing or the record itself returns and
    leaves the header and every data row as they were.  The one change
    it can make is below the data: when the filter selects the record
    of the blank row that the block read returns there, that row is
    written, and the table ends with one more row of blank cells. *)
Theorem Grid_identity_update_keeps_table (a : gmap string Grid.Table) (sh : string)
    (header : list value) (data : Grid.Table) (s : State) (updateFn : UpdateFn) :
  a !! sh = Some (header :: data) → app s = a → resolved s = Some sh →
  _sheetValues (this s) = None → headingsUnloaded (_sheetHeadings (this s)) = true →
  plainHeadings header → NoDup (toPropertyKey <$> header) →
  Forall (λ h, arrayIndex (toPropertyKey h) = None) header →
  Forall (λ d, length d = length header) data →
  (∀ ro, updateFn ro = (ro, RetUndefined) ∨ updateFn ro = (ro, RetSame)) →
  (updateRows updateFn s).1 = Ok tt ∧
  Grid.table (app (updateRows updateFn s).2) sh
  = header :: data
      ++ (if selects (whereFn (this s))
               (recordOf header (Z.of_nat (length header)) (length data)
                  (replicate (length header) Grid.blank))
          then [replicate (length header) Grid.blank] else []).
Proof.
  intros Ha Hs Hr Hc Hu _ Hnd Hnamed Hrect Hfn.
  destruct (Grid_updateRows_table a sh header data s updateFn Ha Hs Hr Hc) as [Hok ->].
  split; [exact Hok|]. subst a.
  assert (HC : Grid.lastColumn (header :: data) = Z.of_nat (length header)).
  { apply Grid_lastColumn_header. eapply Forall_impl; [exact Hrect|]. simpl. lia. }
  rewrite HC. set (numCols := Z.of_nat (length header)).
  assert (Hhs : headingsIn s sh = Some header).
  { unfold headingsIn. rewrite Hu, (Grid_headerRow _ _ _ _ Ha), HC. f_equal.
    apply Grid_padded_fits. subst numCols. lia. }
  rewrite Hhs. simpl default. f_equal. f_equal.
  - apply imap_same. intros r d Hd.
    assert (Hlen : length d = length header).
    { eapply Forall_forall in Hrect; [exact Hrect|]. by eapply list_elem_of_lookup_2. }
    rewrite (Grid_rewritten_clean _ updateFn header d d r Hlen Hlen)
      by by apply Grid_flat_same.
    by destruct (selects _ _).
  - apply Grid_pastEnd_clean; [by rewrite length_replicate|].
    apply Grid_flat_same; try done. by rewrite length_replicate.
Qed.

Lemma Grid_identity_update_keeps_table_witness :
  (updateRows keepAsIs (Grid.query demo "S")).1 = Ok tt ∧
  Grid.table (app (updateRows keepAsIs (Grid.query demo "S")).2) "S"
  = [VStr "A"; VStr "B"] :: demoData
      ++ (if selects (whereFn (this (Grid.query demo "S")))
               (recordOf [VStr "A"; VStr "B"] (Z.of_nat (length [VStr "A"; VStr "B"]))
                  (length demoData) (replicate (length [VStr "A"; VStr "B"]) Grid.blank))
          then [replicate (length [VStr "A"; VStr "B"]) Grid.blank] else []).
Proof.
  apply (Grid_identity_update_keeps_table demo "S" [VStr "A"; VStr "B"] demoData
           (Grid.query demo "S") keepAsIs).
  - vm_compute. reflexivity.
  - reflexivity.
  - vm_compute. reflexivity.
  - reflexivity.
  - reflexivity.
  - apply plainHeadings_check. vm_compute. reflexivity.
  - apply (bool_decide_unpack _). vm_compute. exact I.
  - repeat (constructor; [reflexivity|]). constructor.
  - repeat (constructor; [reflexivity|]). constructor.
  - intros ro. by left.
Defined.

(** The sample, computed with and without a filter: with the filter the
    table stays as it was; without, the blank row below the data is
    written too. *)
Example demo_identity_update :
  Grid.table (app (updateRows keepAsIs demoDelete).2) "S" = Grid.table demo "S" ∧
  Grid.table (app (updateRows keepAsIs (Grid.query demo "S")).2) "S"
  = Grid.table demo "S" ++ [[VStr EmptyString; VStr EmptyString]].
Proof. split; vm_compute; reflexivity. Qed.

(** X14.  Inserting, then reading, on the table store: from an empty
    cache and with no heading on a reserved name, [insertRows] returns,
    one row per record is added after the last row, each with one cell
    per heading as [appendedCell] computes it, and the next [getValues]
    returns the records of the old rows, then those of the new ones,
    then one record of blank cells for the row below the last.  On the
    sample: inserting the record with [A] = 9 and [C] = 3 under the
    headings [A], [B] appends the row 9, blank; the property [C] is
    dropped, and the table reads back as the records of rows 2 and 3
    and the blank one of row 4. *)
Theorem Grid_insert_then_read :
  (∀ (a : gmap string Grid.Table) (sh : string) (header : list value) (data : Grid.Table)
     (s : State) (newRows : list DictObject),
      a !! sh = Some (header :: data) → app s = a → resolved s = Some sh →
      _sheetValues (this s) = None → headingsUnloaded (_sheetHeadings (this s)) = true →
      plainHeadings (padded (Grid.lastColumn (header :: data)) header) →
      let numCols := Grid.lastColumn (header :: data) in
      let headings := padded numCols header in
      let appended := (λ ro, appendedCell ro <$> headings) <$> newRows in
      (insertRows newRows s).1 = Ok tt ∧
      Grid.table (app (insertRows newRows s).2) sh = header :: data ++ appended ∧
      (getValues (insertRows newRows s).2).1
      = Ok (materialize (Some headings) numCols
              ((padded numCols <$> data) ++ appended
               ++ [replicate (Z.to_nat numCols) Grid.blank])))
  ∧ (Grid.table (app (insertRows [ {[ "A" := VNum 9; "C" := VNum 3 ]} ]
                        (Grid.query small "T")).2) "T"
     = [[VStr "A"; VStr "B"]; [VNum 1; VNum 2]; [VNum 9; VStr EmptyString]] ∧
     (getValues (insertRows [ {[ "A" := VNum 9; "C" := VNum 3 ]} ] (Grid.query small "T")).2).1
     = Ok [ smallRow;
            {| __meta := Some {| row := 3; cols := 2 |};
               fields := [("A", VNum 9); ("B", VStr EmptyString)] |};
            {| __meta := Some {| row := 4; cols := 2 |};
               fields := [("A", VStr EmptyString); ("B", VStr EmptyString)] |} ]).
Proof.
  split; [|split; vm_compute; reflexivity].
  intros a sh header data s newRows Ha Hs Hr Hc Hu _ numCols headings appended.
  subst a.
  assert (Hh : headingsIn s sh = Some headings).
  { unfold headingsIn. rewrite Hu. exact (Grid_headerRow _ _ _ _ Ha). }
  rewrite (insertRows_run newRows s sh headings Hr Hh). cbn [fst snd].
  split; [done|].
  set (s1 := withThis (set_sheetHeadings (Some headings))
               (runCalls (headingCalls s sh) (afterGetSheet s))).
  assert (Hs1 : app s1 = app s).
  { subst s1. simpl. rewrite afterGetSheet_app. unfold headingCalls.
    by destruct (headingsUnloaded _). }
  assert (Hcalls : (λ ro, CAppendRow sh (appendedCell ro <$> headings)) <$> newRows
                   = CAppendRow sh <$> appended).
  { subst appended. by rewrite <- list_fmap_compose. }
  assert (Ha2 : (app (runCalls ((λ ro, CAppendRow sh (appendedCell ro <$> headings))
                                  <$> newRows) s1) : gmap string Grid.Table)
                  !! sh = Some (header :: data ++ appended)).
  { cbn [app runCalls]. rewrite Hcalls, Hs1.
    exact (Grid_appendRows (app s) sh (header :: data) appended Ha). }
  split; [unfold Grid.table; by rewrite Ha2|].
  assert (Hlen : Forall (λ cells, length cells = Z.to_nat numCols) appended).
  { subst appended. apply Forall_fmap, Forall_forall. intros ro _. simpl.
    rewrite length_fmap. apply Grid_padded_length. }
  pose proof (Grid_lastColumn_app header data appended Hlen) as HC.
  set (s2 := runCalls _ s1) in *.
  assert (Hr2 : resolved s2 = Some sh).
  { unfold resolved. subst s2 s1. simpl. by rewrite afterGetSheet_sheet, Hr. }
  assert (Hc2 : _sheetValues (this s2) = None).
  { subst s2 s1. simpl. by rewrite afterGetSheet_values. }
  rewrite (getValues_load s2 sh Hc2 Hr2 (Grid_loadable s2 sh)). cbn [fst].
  assert (Hcol : getLastColumn (app s2) sh = numCols).
  { change (getLastColumn (app s2) sh) with (Grid.lastColumn (Grid.table (app s2) sh)).
    unfold Grid.table. rewrite Ha2. exact HC. }
  assert (Hh2 : headingsIn s2 sh = Some headings).
  { unfold headingsIn.
    replace (_sheetHeadings (this s2)) with (Some headings) by done.
    destruct (headingsUnloaded (Some headings)) eqn:E; [|done].
    rewrite (Grid_headerRow _ _ _ _ Ha2), HC. done. }
  rewrite Hh2, Hcol, (Grid_dataBlock _ _ _ _ Ha2), HC, <- app_assoc, !fmap_app.
  do 3 f_equal. fold numCols. f_equal.
  - clear -Hlen. induction Hlen as [|cells rows Hc _ IH]; [done|].
    rewrite fmap_cons, IH. f_equal. by apply Grid_padded_fits.
  - simpl. by rewrite Grid_padded_nil.
Qed.

Lemma Grid_insert_then_read_witness :
  let numCols := Grid.lastColumn ([VStr "A"; VStr "B"] :: [[VNum 1; VNum 2]]) in
  let headings := padded numCols [VStr "A"; VStr "B"] in
  let appended :=
    (λ ro, appendedCell ro <$> headings) <$> [ ({[ "A" := VNum 9 ]} : DictObject) ] in
  (insertRows [ {[ "A" := VNum 9 ]} ] (Grid.query small "T")).1 = Ok tt ∧
  Grid.table (app (insertRows [ {[ "A" := VNum 9 ]} ] (Grid.query small "T")).2) "T"
  = [VStr "A"; VStr "B"] :: [[VNum 1; VNum 2]] ++ appended ∧
  (getValues (insertRows [ {[ "A" := VNum 9 ]} ] (Grid.query small "T")).2).1
  = Ok (materialize (Some headings) numCols
          ((padded numCols <$> [[VNum 1; VNum 2]]) ++ appended
           ++ [replicate (Z.to_nat numCols) Grid.blank])).
Proof.
  apply (proj1 Grid_insert_then_read small "T" [VStr "A"; VStr "B"] [[VNum 1; VNum 2]]
           (Grid.query small "T") [ {[ "A" := VNum 9 ]} ]).
  - vm_compute. reflexivity.
  - reflexivity.
  - vm_compute. reflexivity.
  - reflexivity.
  - reflexivity.
  - apply plainHeadings_check. vm_compute. reflexivity.
Defined.



(** The sample update, computed: column [A] of the two selected rows
    is set, the other rows stay; without the filter every row is
    written, the blank one below the data too. *)
Example demo_updateRows_table :
  Grid.table (app (updateRows overwriteA demoDelete).2) "S"
  = [[VStr "A"; VStr "B"]; [VNum 9; VNum 2]; [VNum 3; VNum 4];
     [VNum 9; VNum 6]; [VNum 7; VNum 8]] ∧
  Grid.table (app (updateRows overwriteA (Grid.query demo "S")).2) "S"
  = [[VStr "A"; VStr "B"]; [VNum 9; VNum 2]; [VNum 9; VNum 4];
     [VNum 9; VNum 6]; [VNum 9; VNum 8]; [VNum 9; VStr EmptyString]].
Proof. split; vm_compute; reflexivity. Qed.

(** X16.  Setting one column, on the table store: when no heading is
    a reserved name, the headings are pairwise distinct as property
    keys, none is an array index and every data row is as wide as the
    header, [updateRows] with the callback that assigns [v] to the
    property of the heading of column [c] sets cell [c] of every
    selected row to [v] and leaves every other cell of the table as it
    was; when the filter selects the record of the blank row below the
    data, that row is added with [v] in cell [c]. *)
Theorem Grid_update_sets_column (a : gmap string Grid.Table) (sh : string)
    (header : list value) (data : Grid.Table) (s : State)
    (c : nat) (h v : value) (res : UpdateResult) :
  a !! sh = Some (header :: data) → app s = a → resolved s = Some sh →
  _sheetValues (this s) = None → headingsUnloaded (_sheetHeadings (this s)) = true →
  plainHeadings header → NoDup (toPropertyKey <$> header) →
  Forall (λ h, arrayIndex (toPropertyKey h) = None) header →
  Forall (λ d, length d = length header) data →
  header !! c = Some h → res = RetUndefined ∨ res = RetSame →
  Grid.table (app (updateRows (λ ro, (setProp ro (toPropertyKey h) v, res)) s).2) sh
  = header :: imap (λ r d, if selects (whereFn (this s))
                                (recordOf header (Z.of_nat (length header)) r d)
                           then <[c := v]> d else d) data
      ++ (if selects (whereFn (this s))
               (recordOf header (Z.of_nat (length header)) (length data)
                  (replicate (length header) Grid.blank))
          then [<[c := v]> (replicate (length header) Grid.blank)] else []).
Proof.
  intros Ha Hs Hr Hc Hu _ Hnd Hnamed Hrect Hh Hres.
  destruct (Grid_updateRows_table a sh header data s
              (λ ro, (setProp ro (toPropertyKey h) v, res)) Ha Hs Hr Hc) as [_ ->].
  subst a.
  assert (HC : Grid.lastColumn (header :: data) = Z.of_nat (length header)).
  { apply Grid_lastColumn_header. eapply Forall_impl; [exact Hrect|]. simpl. lia. }
  rewrite HC. set (numCols := Z.of_nat (length header)).
  assert (Hhs : headingsIn s sh = Some header).
  { unfold headingsIn. rewrite Hu, (Grid_headerRow _ _ _ _ Ha), HC. f_equal.
    apply Grid_padded_fits. subst numCols. lia. }
  rewrite Hhs. simpl default. f_equal. f_equal.
  - apply imap_ext. intros r d Hd.
    assert (Hlen : length d = length header).
    { eapply Forall_forall in Hrect; [exact Hrect|]. by eapply list_elem_of_lookup_2. }
    apply (Grid_rewritten_clean _ _ header d (<[c := v]> d) r Hlen).
    + by rewrite length_insert.
    + cbn [fst snd]. by apply Grid_flat_set.
  - apply Grid_pastEnd_clean; [by rewrite length_insert, length_replicate|].
    cbn [fst snd]. apply Grid_flat_set; try done. by rewrite length_replicate.
Qed.

Lemma Grid_update_sets_column_witness :
  Grid.table (app (updateRows (λ ro, (setProp ro (toPropertyKey (VStr "A")) (VNum 9),
                                      RetUndefined)) demoDelete).2) "S"
  = [VStr "A"; VStr "B"]
    :: imap (λ r d, if selects (whereFn (this demoDelete))
                         (recordOf [VStr "A"; VStr "B"]
                            (Z.of_nat (length [VStr "A"; VStr "B"])) r d)
                    then <[0%nat := VNum 9]> d else d) demoData
       ++ (if selects (whereFn (this demoDelete))
                (recordOf [VStr "A"; VStr "B"] (Z.of_nat (length [VStr "A"; VStr "B"]))
                   (length demoData) (replicate (length [VStr "A"; VStr "B"]) Grid.blank))
           then [<[0%nat := VNum 9]> (replicate (length [VStr "A"; VStr "B"]) Grid.blank)]
           else []).
Proof.
  apply (Grid_update_sets_column demo "S" [VStr "A"; VStr "B"] demoData
           demoDelete 0%nat (VStr "A") (VNum 9) RetUndefined).
  - vm_compute. reflexivity.
  - reflexivity.
  - vm_compute. reflexivity.
  - reflexivity.
  - reflexivity.
  - apply plainHeadings_check. vm_compute. reflexivity.
  - apply (bool_decide_unpack _). vm_compute. exact I.
  - repeat (constructor; [reflexivity|]). constructor.
  - repeat (constructor; [reflexivity|]). constructor.
  - reflexivity.
  - by left.
Defined.
